(** * CircuitVerse: project loader and subcircuit folder panel

    A shallow embedding of two source files of the simulator,

    - [simulator/src/folderPanel.js] (module [FolderPanel] below), and
    - the project loader ([rectifyObjectType], [loadModule],
      [removeBugNodes], [loadScope], [load]; module [Loader] below),

    together with the properties the specification states about them and
    further properties read off the code. *)

From stdpp Require Import gmap strings list pretty.
From Stdlib Require Import ZArith Lia.

Set Warnings "-register-all".

Local Open Scope string_scope.
Local Open Scope nat_scope.

(** ** JavaScript values

    Numbers are the integers of the documents (coordinates, delays, counts)
    plus [VNaN]; [VArr] and [VObj] are plain data (parsed JSON and object or
    array literals the code never mutates), [VRef] is a reference to a live,
    mutable object of the heap. *)
Inductive value : Type :=
| VUndef
| VNull
| VBool (b : bool)
| VNum (z : Z)
| VNaN
| VStr (s : string)
| VRef (l : nat)
| VArr (xs : list value)
| VObj (kvs : list (string * value)).

(** ToBoolean. *)
Definition truthy (v : value) : bool :=
  match v with
  | VUndef | VNull | VNaN => false
  | VBool b => b
  | VNum z => negb (z =? 0)%Z
  | VStr s => negb (String.eqb s EmptyString)
  | VRef _ | VArr _ | VObj _ => true
  end.

(** [a || b] on already evaluated operands. *)
Definition js_or (a b : value) : value := if truthy a then a else b.

(** A string is truthy unless it is empty. *)
Definition truthy_str (s : string) : bool := negb (String.eqb s EmptyString).

(* ====================================================================== *)
(** * simulator/src/folderPanel.js *)
(* ====================================================================== *)
Module FolderPanel.

(** FolderDoc: [{ id, name, parentId? }].  [parentId = None] stands for an
    absent (or null) parent. *)
Record Folder := mkFolder {
  id : string;
  name : string;
  parentId : option string
}.

(** The part of a scope the panel reads and writes.  [folders] and
    [subcircuitMap] may be missing on a scope ([None]); the map sends a
    subcircuit id to the id of its folder. *)
Record Scope := mkScope {
  scope_id : string;
  folders : option (list Folder);
  subcircuitMap : option (gmap string string)
}.

(** Module-level and global state the functions consult: [scopeList] (loaded
    circuits, id to display name), [globalScope], and whether
    [folderPanelContainer] has been initialised. *)
Record Env := mkEnv {
  scopeList : gmap string string;
  globalScope : option Scope;
  folderPanelContainer : bool
}.

(** *** The folder structure built for display

    The DOM built by [createFolderStructure], reduced to its shape: the
    element created for the folder at index [i] of [scope.folders] is
    element [i]; [CRoot] is the root folder's [.folder-subcircuits]
    container, [CFolder i] the one of element [i]. *)
Inductive container := CRoot | CFolder (i : nat).

Inductive elemref := ERootFolder | EFolder (i : nat).

(** [el.querySelector('.folder-subcircuits')]: the element's own container
    (folder names are taken to contain no markup). *)
Definition container_of (e : elemref) : container :=
  match e with ERootFolder => CRoot | EFolder i => CFolder i end.

Record FolderDom := mkDom {
  placed : gmap nat container;          (* parent container of each folder element *)
  root_items : list string;             (* subcircuit items under root *)
  folder_items : gmap nat (list string);(* subcircuit items of each folder element *)
  hierarchy_error : bool                (* the catch block added a .folder-error *)
}.

(** [createSubcircuitElement]: [null] for a falsy id or an id that is not in
    [scopeList]; otherwise an item for that id. *)
Definition createSubcircuitElement (env : Env) (subcircuitId : string) : option string :=
  if negb (truthy_str subcircuitId) then None
  else match scopeList env !! subcircuitId with
       | None => None
       | Some _ => Some subcircuitId
       end.

(** Lines 123-148: subcircuits without a map entry go under root.  The items
    are listed in the order of [map_to_list], not in the insertion order
    [Object.keys] follows; the statements below speak of membership only. *)
Definition root_subcircuits (env : Env) (sid : string) (m : gmap string string) : list string :=
  omap (fun kv : string * string =>
          if String.eqb kv.1 sid then None
          else match m !! kv.1 with
               | None => createSubcircuitElement env kv.1
               | Some _ => None
               end)
       (map_to_list (scopeList env)).

(** Lines 244-255: the subcircuits mapped to one folder. *)
Definition folder_subcircuits (env : Env) (m : gmap string string) (fid : string) : list string :=
  omap (fun kv : string * string =>
          if String.eqb kv.2 fid then createSubcircuitElement env kv.1 else None)
       (map_to_list m).

(** [!folder || !folder.id]. *)
Definition invalid_folder (f : Folder) : bool := negb (truthy_str (id f)).

(** Lines 160-260, first loop: one element per valid folder, registered in
    [folderElements] under the folder id (a later folder with the same id
    replaces the earlier registration). *)
Fixpoint create_elements (env : Env) (m : gmap string string) (i : nat) (fs : list Folder)
    (els : gmap string elemref) (items : gmap nat (list string))
    : gmap string elemref * gmap nat (list string) :=
  match fs with
  | [] => (els, items)
  | f :: rest =>
      if invalid_folder f then create_elements env m (S i) rest els items
      else create_elements env m (S i) rest
             (<[id f := EFolder i]> els)
             (<[i := folder_subcircuits env m (id f)]> items)
  end.

(** Is element [j] the element [p] or one of its ancestors? *)
Fixpoint ancestor_or_self (fuel : nat) (pl : gmap nat container) (j p : nat) : bool :=
  (j =? p) ||
  match fuel with
  | O => false
  | S fuel' =>
      match pl !! p with
      | Some (CFolder q) => ancestor_or_self fuel' pl j q
      | _ => false
      end
  end.

(** [target.appendChild(element j)]: the element moves into [target]; the
    DOM refuses (HierarchyRequestError) to put an element into itself or
    into one of its descendants. *)
Definition appendChild (fuel : nat) (pl : gmap nat container) (target : container) (j : nat)
    : option (gmap nat container) :=
  match target with
  | CRoot => Some (<[j := CRoot]> pl)
  | CFolder p =>
      if ancestor_or_self fuel pl j p then None
      else Some (<[j := CFolder p]> pl)
  end.

(** [parentId && folderElements[parentId]] picks the parent's container,
    anything else the root container. *)
Definition parent_container (els : gmap string elemref) (f : Folder) : container :=
  match parentId f with
  | Some p =>
      if truthy_str p then
        match els !! p with
        | Some e => container_of e
        | None => CRoot
        end
      else CRoot
  | None => CRoot
  end.

(** Lines 262-287, second loop.  The boolean tells whether an exception
    ended the loop (it is caught at line 288; what was placed stays). *)
Fixpoint organize_hierarchy (fuel : nat) (els : gmap string elemref) (fs : list Folder)
    (pl : gmap nat container) : gmap nat container * bool :=
  match fs with
  | [] => (pl, false)
  | f :: rest =>
      if invalid_folder f then organize_hierarchy fuel els rest pl
      else match els !! id f with
           | Some (EFolder j) =>
               match appendChild fuel pl (parent_container els f) j with
               | Some pl' => organize_hierarchy fuel els rest pl'
               | None => (pl, true)
               end
           | _ => (pl, true)
           end
  end.

(** The scope with its missing [folders] and [subcircuitMap] initialised. *)
Definition ensure_collections (sc : Scope) : Scope :=
  mkScope (scope_id sc)
          (Some (default [] (folders sc)))
          (Some (default ∅ (subcircuitMap sc))).

Definition build_dom (env : Env) (sc : Scope) : FolderDom :=
  let fs := default [] (folders sc) in
  let m := default ∅ (subcircuitMap sc) in
  let '(els, items) := create_elements env m 0 fs {["root" := ERootFolder]} ∅ in
  let '(pl, err) := organize_hierarchy (length fs) els fs ∅ in
  mkDom pl (root_subcircuits env (scope_id sc) m) items err.

(** [createFolderStructure(scope)]: [None] is the thrown
    "Failed to get a valid scope". *)
Definition createFolderStructure (env : Env) (scope : option Scope) : option (Scope * FolderDom) :=
  match (match scope with Some sc => Some sc | None => globalScope env end) with
  | None => None
  | Some sc => Some (ensure_collections sc, build_dom env sc)
  end.

(** *** Effects *)
Inductive event :=
| ConsoleWarn (msg : string)
| ConsoleError (msg : string)
| PanelRendered (dom : FolderDom)
| ScheduleBackup
| ShowMessage (msg : string).

(** [renderFolderPanel(scope)], called with a scope. *)
Definition renderFolderPanel (env : Env) (sc : Scope) : Scope * list event :=
  if folderPanelContainer env then
    (ensure_collections sc, [PanelRendered (build_dom env sc)])
  else (sc, [ConsoleError "Folder panel container is not initialized"]).

(** What a call of [moveSubcircuitToFolder] leaves behind: the scope object
    it worked on (if any), the effects in order, and the value handed back
    to the caller. *)
Record MoveResult := mkMove {
  scope_after : option Scope;
  trace : list event;
  returned : value
}.

Definition with_map (sc : Scope) (m : gmap string string) : Scope :=
  mkScope (scope_id sc) (folders sc) (Some m).

(** Lines 601-610. *)
Definition finish_move (env : Env) (sc : Scope) (folderId : option string) : MoveResult :=
  let '(sc', evs) := renderFolderPanel env sc in
  let target := match folderId with
                | Some f => if truthy_str f then "folder" else "root"
                | None => "root"
                end in
  mkMove (Some sc')
         (evs ++ [ScheduleBackup;
                  ShowMessage ("Subcircuit moved to " ++ target ++ " successfully")])
         VUndef.

(** The sentinel the source compares the destination with: the mapped folder
    id, or the string "root" when the entry is missing or falsy. *)
Definition currentFolder (m : gmap string string) (subcircuitId : string) : string :=
  match m !! subcircuitId with
  | Some f => if truthy_str f then f else "root"
  | None => "root"
  end.

(** [currentFolder === folderId], where [folderId] may be [null]. *)
Definition same_folder (cur : string) (folderId : option string) : bool :=
  match folderId with
  | Some f => String.eqb cur f
  | None => false
  end.

(** [scope.folders.some(folder => folder.id === folderId)]; [None] is the
    TypeError raised when [scope.folders] is missing. *)
Definition folderExists (sc : Scope) (folderId : string) : option bool :=
  match folders sc with
  | None => None
  | Some fs => Some (existsb (fun folder => String.eqb (id folder) folderId) fs)
  end.

(** Lines 562-613: the body of the [try], on a scope that is there. *)
Definition move_in_scope (env : Env) (subcircuitId : string)
    (folderId : option string) (sc : Scope) : MoveResult :=
  let m := default ∅ (subcircuitMap sc) in
  let sc := with_map sc m in
  match scopeList env !! subcircuitId with
  | None =>
      mkMove (Some sc)
        [ConsoleWarn ("[moveSubcircuitToFolder] Subcircuit " ++ subcircuitId
                      ++ " not found in scopeList")] VUndef
  | Some _ =>
      if same_folder (currentFolder m subcircuitId) folderId then
        mkMove (Some sc) [] VUndef
      else
        match folderId with
        | None => finish_move env (with_map sc (delete subcircuitId m)) folderId
        | Some fid =>
            match folderExists sc fid with
            | None =>
                mkMove (Some sc)
                  [ConsoleError "[moveSubcircuitToFolder] Error moving subcircuit:"] VUndef
            | Some false =>
                mkMove (Some sc)
                  [ConsoleError ("[moveSubcircuitToFolder] Target folder " ++ fid
                                 ++ " does not exist")] VUndef
            | Some true =>
                finish_move env (with_map sc (<[subcircuitId := fid]> m)) folderId
            end
        end
  end.

(** [moveSubcircuitToFolder(subcircuitId, folderId, scope)];
    [folderId = None] is [null], the root.  Every path ends in a bare
    [return] or falls off the end of the function. *)
Definition moveSubcircuitToFolder (env : Env) (subcircuitId : string)
    (folderId : option string) (scope : option Scope) : MoveResult :=
  if negb (truthy_str subcircuitId) then
    mkMove scope [ConsoleError "[moveSubcircuitToFolder] No subcircuit ID provided"] VUndef
  else
    match scope with
    | Some sc => move_in_scope env subcircuitId folderId sc
    | None =>
        let fallback :=
          ConsoleError "[moveSubcircuitToFolder] No scope provided, falling back to globalScope" in
        match globalScope env with
        | None =>
            mkMove None
              [fallback; ConsoleError "[moveSubcircuitToFolder] Failed to get a valid scope"]
              VUndef
        | Some sc =>
            let r := move_in_scope env subcircuitId folderId sc in
            mkMove (scope_after r) (fallback :: trace r) (returned r)
        end
    end.

(** Observations on a result. *)
Definition entries (sc : option Scope) : gmap string string :=
  match sc with
  | Some s => default ∅ (subcircuitMap s)
  | None => ∅
  end.

Definition is_backup (e : event) : bool :=
  match e with ScheduleBackup => true | _ => false end.


Definition schedules_backup (r : MoveResult) : bool := existsb is_backup (trace r).

End FolderPanel.

(* ====================================================================== *)
(** * The project loader (load.js) *)
(* ====================================================================== *)
Module Loader.

(** ** The store

    Live objects are cells of a heap addressed by [VRef]: plain objects with
    their own properties in insertion order, and arrays.  A scope and the
    shallow copy [loadScope] makes of it are two cells whose properties may
    hold the same references. *)
Inductive cell :=
| CObj (fields : list (string * value))
| CArr (items : list value).

Record world := mkWorld {
  heap : list cell;
  globalScope : value;
  ids : nat                       (* how many ids [generateId] has handed out *)
}.

(** How a computation ends: normally, with an exception (nothing in the
    loader catches one), in a behaviour of JavaScript this model does not
    cover (ill-typed documents, exotic coercions), or out of fuel. *)
Inductive outcome (A : Type) :=
| Ok (a : A) (w : world)
| Throw (err : string)
| Unmodelled (why : string)
| OutOfFuel.
Arguments Ok {A} a w.
Arguments Throw {A} err.
Arguments Unmodelled {A} why.
Arguments OutOfFuel {A}.

Definition M (A : Type) : Type := world → outcome A.

Definition ret {A} (a : A) : M A := fun w => Ok a w.

Definition bind {A B} (m : M A) (k : A → M B) : M B :=
  fun w =>
    match m w with
    | Ok a w' => k a w'
    | Throw e => Throw e
    | Unmodelled y => Unmodelled y
    | OutOfFuel => OutOfFuel
    end.

Notation "'let*' x ':=' m 'in' k" := (bind m (fun x => k))
  (at level 10, x name, m at level 100, k at level 200).

Definition throw {A} (e : string) : M A := fun _ => Throw e.
Definition unmodelled {A} (y : string) : M A := fun _ => Unmodelled y.

Fixpoint forEach {A} (xs : list A) (f : A → M unit) : M unit :=
  match xs with
  | [] => ret tt
  | x :: rest => let* _ := f x in forEach rest f
  end.

(** [for (let i = 0; i < xs.length; i++) f(i, xs[i])] over plain data. *)
Fixpoint forIndex {A} (i : nat) (xs : list A) (f : nat → A → M unit) : M unit :=
  match xs with
  | [] => ret tt
  | x :: rest => let* _ := f i x in forIndex (S i) rest f
  end.

(** ** Objects *)

Fixpoint assoc_get (k : string) (kvs : list (string * value)) : value :=
  match kvs with
  | [] => VUndef
  | (k', v) :: rest => if String.eqb k k' then v else assoc_get k rest
  end.

Fixpoint assoc_set (k : string) (v : value) (kvs : list (string * value))
    : list (string * value) :=
  match kvs with
  | [] => [(k, v)]
  | (k', v') :: rest =>
      if String.eqb k k' then (k, v) :: rest else (k', v') :: assoc_set k v rest
  end.

(** The own property [k] of the object at [l]; [undefined] when the cell
    is not a plain object or has no such property. *)
Definition slot (w : world) (l : nat) (k : string) : value :=
  match heap w !! l with
  | Some (CObj fields) => assoc_get k fields
  | _ => VUndef
  end.

(** Reading [v.k] without effects; [None] where JavaScript throws. *)
Definition peek (w : world) (v : value) (k : string) : option value :=
  match v with
  | VUndef | VNull => None
  | VObj kvs => Some (assoc_get k kvs)
  | VArr xs => Some (if String.eqb k "length" then VNum (Z.of_nat (length xs)) else VUndef)
  | VStr s => Some (if String.eqb k "length" then VNum (Z.of_nat (String.length s)) else VUndef)
  | VRef l =>
      match heap w !! l with
      | Some (CObj fields) => Some (assoc_get k fields)
      | Some (CArr xs) =>
          Some (if String.eqb k "length" then VNum (Z.of_nat (length xs)) else VUndef)
      | None => Some VUndef
      end
  | VBool _ | VNum _ | VNaN => Some VUndef
  end.

(** [v.k] *)
Definition getp (v : value) (k : string) : M value :=
  fun w =>
    match peek w v k with
    | Some x => Ok x w
    | None => Throw "TypeError: cannot read properties of undefined or null"
    end.

(** The elements of an array, live or plain. *)
Definition elements (w : world) (v : value) : option (list value) :=
  match v with
  | VArr xs => Some xs
  | VRef l => match heap w !! l with Some (CArr xs) => Some xs | _ => None end
  | _ => None
  end.

(** [v[i]] for an array or a primitive; indexing a plain object by number is
    not modelled. *)
Definition geti (v : value) (i : nat) : M value :=
  fun w =>
    match v with
    | VUndef | VNull => Throw "TypeError: cannot read properties of undefined or null"
    | VObj _ => Unmodelled "numeric index into a plain object"
    | VStr _ => Unmodelled "numeric index into a string"
    | VBool _ | VNum _ | VNaN => Ok VUndef w
    | VArr _ | VRef _ =>
        match elements w v with
        | Some xs => Ok (default VUndef (xs !! i)) w
        | None =>
            match v with
            | VRef l =>
                match heap w !! l with
                | None => Ok VUndef w
                | _ => Unmodelled "numeric index into a plain object"
                end
            | _ => Ok VUndef w
            end
        end
    end.

Definition set_cell (l : nat) (c : cell) (w : world) : world :=
  mkWorld (<[l := c]> (heap w)) (globalScope w) (ids w).

(** [v.k = x] (strict mode: a primitive target throws). *)
Definition setp (v : value) (k : string) (x : value) : M unit :=
  fun w =>
    match v with
    | VRef l =>
        match heap w !! l with
        | Some (CObj fields) => Ok tt (set_cell l (CObj (assoc_set k x fields)) w)
        | Some (CArr _) => Unmodelled "named property on an array"
        | None => Unmodelled "dangling reference"
        end
    | VArr _ | VObj _ => Unmodelled "assignment into plain data"
    | _ => Throw "TypeError: cannot set properties of a primitive"
    end.

(** Array write: in range it replaces, past the end it extends. *)
Definition write_index (xs : list value) (i : nat) (x : value) : list value :=
  if i <? length xs then <[i := x]> xs
  else xs ++ replicate (i - length xs) VUndef ++ [x].

(** [v[i] = x] *)
Definition seti (v : value) (i : nat) (x : value) : M unit :=
  fun w =>
    match v with
    | VRef l =>
        match heap w !! l with
        | Some (CArr xs) => Ok tt (set_cell l (CArr (write_index xs i x)) w)
        | Some (CObj _) => Unmodelled "numeric index into a plain object"
        | None => Unmodelled "dangling reference"
        end
    | VArr _ | VObj _ => Unmodelled "assignment into plain data"
    | _ => Throw "TypeError: cannot set properties of a primitive"
    end.

(** A fresh object. *)
Definition alloc (c : cell) : M value :=
  fun w => Ok (VRef (length (heap w))) (mkWorld (heap w ++ [c]) (globalScope w) (ids w)).

(** The own enumerable properties copied by [{...v}]. *)
Definition spread (w : world) (v : value) : option (list (string * value)) :=
  match v with
  | VObj kvs => Some kvs
  | VRef l =>
      match heap w !! l with
      | Some (CObj fields) => Some fields
      | Some (CArr _) => None
      | None => Some []
      end
  | VArr _ | VStr _ => None
  | VUndef | VNull | VBool _ | VNum _ | VNaN => Some []
  end.

Definition spread_props (v : value) : M (list (string * value)) :=
  fun w =>
    match spread w v with
    | Some kvs => Ok kvs w
    | None => Unmodelled "spread of an array or a string into an object"
    end.

(** [Object.keys(v)] for the objects of a document. *)
Definition own_keys (v : value) : M (list string) :=
  fun w =>
    match spread w v with
    | Some kvs => Ok (kvs.*1) w
    | None => Unmodelled "keys of an array or a string"
    end.

(** The items of an array of a document: documents are plain data, typed
    as the ScopeDoc interface says. *)
Definition doc_items (v : value) : M (list value) :=
  match v with
  | VArr xs => ret xs
  | VUndef | VNull => throw "TypeError: cannot read properties of undefined or null"
  | _ => unmodelled "ill-typed document: an array was expected"
  end.

(** [===] against a number and against a string. *)
Definition is_num (v : value) (z : Z) : bool :=
  match v with VNum z' => (z' =? z)%Z | _ => false end.

Definition is_str (v : value) (s : string) : bool :=
  match v with VStr s' => String.eqb s' s | _ => false end.

Definition is_undefined (v : value) : bool :=
  match v with VUndef => true | _ => false end.

(** [a !== b] for two lengths. *)
Definition lengths_differ (a b : value) : bool :=
  match a, b with
  | VNum x, VNum y => negb (x =? y)%Z
  | VUndef, VUndef => false
  | _, _ => true
  end.

(** [i < x] for a counter [i]. *)
Definition index_below (i : nat) (x : value) : bool :=
  match x with VNum z => (Z.of_nat i <? z)%Z | _ => false end.

(** Arithmetic on numbers; [undefined] and [NaN] operands give [NaN], other
    coercions are not modelled. *)
Definition number_like (v : value) : bool :=
  match v with VNum _ | VNaN | VUndef => true | _ => false end.

Definition arith (op : Z → Z → Z) (a b : value) : M value :=
  match a, b with
  | VNum x, VNum y => ret (VNum (op x y))
  | _, _ =>
      if number_like a && number_like b then ret VNaN
      else unmodelled "numeric coercion"
  end.

(** [a / 2]; a quotient that is not an integer is outside the numbers of
    this model. *)
Definition half (a : value) : M value :=
  match a with
  | VNum x => if Z.even x then ret (VNum (x / 2)) else unmodelled "fractional number"
  | VNaN | VUndef => ret VNaN
  | _ => unmodelled "numeric coercion"
  end.

Definition get_globalScope : M value := fun w => Ok (globalScope w) w.

Definition set_globalScope (v : value) : M unit :=
  fun w => Ok tt (mkWorld (heap w) v (ids w)).

(** ** Collaborators

    What the loader imports from modules that are not part of these sources,
    and the globals it reads. *)
Class Collaborators := {
  (** the global [moduleList] *)
  moduleList : list string;
  (** the registry [modules]: the constructor behind a type tag, called
      with [x], [y], the scope and the extra constructor parameters *)
  modules : string → option (value → value → value → list value → M value);
  (** the tables [fixDirection] and [oppositeDirection], as lookups *)
  fixDirection : value → value;
  oppositeDirection : value → value;
  (** the method [obj.fixDirection()] of a circuit element *)
  element_fixDirection : value → M unit;
  (** [replace(node, index)] of '../node' *)
  replace : value → value → M value;
  loadNode : value → value → M unit;
  constructNodeConnections : value → value → M unit;
  loadSubCircuit : value → value → M unit;
  (** the method [wire.updateData(scope)] *)
  wire_updateData : value → value → M unit;
  (** the method [node.delete()] *)
  node_delete : value → M unit;
  (** [new TestbenchData(testData, currentGroup, currentCase)] *)
  TestbenchData : value → value → value → value;
  (** [generateId()]: the id handed out by the n-th call *)
  generateId : nat → value;
  (** [newCircuit(name, id, isVerilog, isMain)] of '../circuit' *)
  newCircuit : value → value → value → value → M value;
  embed : bool;
  (** the method [scope.centerFocus(flag)] *)
  centerFocus : value → bool → M unit;
  update : value → bool → M unit;
  updateRestrictedElementsInScope : M unit;
  scheduleBackup : M unit
}.

Section loader.
Context `{Collaborators}.

Definition fresh_id : M value :=
  fun w => Ok (generateId (ids w)) (mkWorld (heap w) (globalScope w) (S (ids w))).

(** ** rectifyObjectType (lines 25-31) *)

(** The table, with the two entries the literal gives it; names an object
    literal inherits (such as "constructor") are no type tags and are left
    out. *)
Definition rectify : list (string * value) :=
  [("FlipFlop", VStr "DflipFlop"); ("Ram", VStr "Rom")].

(** [rectify[obj] || obj].  Type tags are strings; for any other value the
    lookup is taken to miss. *)
Definition rectifyObjectType (obj : value) : value :=
  match obj with
  | VStr tag => js_or (assoc_get tag rectify) obj
  | _ => obj
  end.

(** ** loadModule (lines 39-79) *)

(** [...(params || [])] as an argument list. *)
Definition spread_args (params : value) : M (list value) :=
  match js_or params (VArr []) with
  | VArr xs => ret xs
  | VRef _ | VStr _ => unmodelled "constructor parameters that are not plain data"
  | _ => throw "TypeError: constructor parameters are not iterable"
  end.

(** Line 41. *)
Definition construct (data scope : value) : M value :=
  let* objectType := getp data "objectType" in
  let* x := getp data "x" in
  let* y := getp data "y" in
  let* customData := getp data "customData" in
  let* params := getp customData "constructorParamaters" in
  let* args := spread_args params in
  match rectifyObjectType objectType with
  | VStr tag =>
      match modules tag with
      | Some ctor => ctor x y scope args
      | None => throw "TypeError: modules[...] is not a constructor"
      end
  | _ => throw "TypeError: modules[...] is not a constructor"
  end.

(** Lines 43-44. *)
Definition set_label (data obj : value) : M unit :=
  let* label := getp data "label" in
  let* _ := setp obj "label" label in
  let* labelDirection := getp data "labelDirection" in
  let* dir :=
    if truthy labelDirection then ret labelDirection
    else let* direction := getp obj "direction" in
         ret (oppositeDirection (fixDirection direction)) in
  setp obj "labelDirection" dir.

(** Lines 47-51. *)
Definition set_delay (data obj : value) : M unit :=
  let* propagationDelay := getp data "propagationDelay" in
  if is_num propagationDelay 0 then setp obj "propagationDelay" (VNum 0)
  else
    let* delay :=
      if truthy propagationDelay then ret propagationDelay
      else getp obj "propagationDelay" in
    setp obj "propagationDelay" delay.

(** Lines 55-61. *)
Definition restore_values (data obj : value) : M unit :=
  let* customData := getp data "customData" in
  let* values := getp customData "values" in
  if truthy values then
    let* props := own_keys values in
    forEach props (fun prop =>
      let* v := getp values prop in
      setp obj prop v)
  else ret tt.

(** [n instanceof Array] for a value of a document. *)
Definition instanceof_Array (n : value) : M bool :=
  match n with
  | VArr _ => ret true
  | VRef _ => unmodelled "live object inside a document"
  | _ => ret false
  end.

(** Lines 64-77. *)
Definition replace_nodes (data obj : value) : M unit :=
  let* customData := getp data "customData" in
  let* nodes := getp customData "nodes" in
  if truthy nodes then
    let* names := own_keys nodes in
    forEach names (fun node =>
      let* n := getp nodes node in
      let* is_array := instanceof_Array n in
      if is_array then
        let* ns := doc_items n in
        forIndex 0 ns (fun i ni =>
          let* target := getp obj node in
          let* old := geti target i in
          let* new := replace old ni in
          seti target i new)
      else
        let* old := getp obj node in
        let* new := replace old n in
        setp obj node new)
  else ret tt.

(** Line 78. *)
Definition attach_subcircuitMetadata (data obj : value) : M unit :=
  let* meta := getp data "subcircuitMetadata" in
  if truthy meta then setp obj "subcircuitMetadata" meta else ret tt.

(** Everything after the construction, on the constructed [obj]. *)
Definition restore_element (data obj : value) : M unit :=
  let* _ := set_label data obj in
  let* _ := set_delay data obj in
  let* _ := element_fixDirection obj in
  let* _ := restore_values data obj in
  let* _ := replace_nodes data obj in
  attach_subcircuitMetadata data obj.

Definition loadModule (data scope : value) : M unit :=
  let* obj := construct data scope in
  restore_element data obj.

(** ** removeBugNodes (lines 86-95)

    [i] is the value of the counter when the loop condition is tested; after
    a change of the node count the body sets [i = 0] and the loop header
    increments it. *)
Fixpoint removeBugNodes_loop (fuel : nat) (scope : value) (i : nat) (x : value) : M unit :=
  match fuel with
  | O => fun _ => OutOfFuel
  | S fuel' =>
      if index_below i x then
        let* allNodes := getp scope "allNodes" in
        let* node := geti allNodes i in
        let* type := getp node "type" in
        let* bug :=
          if negb (is_num type 2) then
            let* parent := getp node "parent" in
            let* objectType := getp parent "objectType" in
            ret (is_str objectType "CircuitElement")
          else ret false in
        let* _ := if bug then node_delete node else ret tt in
        let* allNodes' := getp scope "allNodes" in
        let* len := getp allNodes' "length" in
        if lengths_differ len x then removeBugNodes_loop fuel' scope (S 0) len
        else removeBugNodes_loop fuel' scope (S i) x
      else ret tt
  end.

Definition removeBugNodes (fuel : nat) (scope : value) : M unit :=
  let* scope := if is_undefined scope then get_globalScope else ret scope in
  let* allNodes := getp scope "allNodes" in
  let* x := getp allNodes "length" in
  removeBugNodes_loop fuel scope 0 x.

(** ** loadScope (lines 103-188) *)

(** The number of elements of a live array, fixed when [forEach] or [map]
    starts; anything that is not an array has no such method. *)
Definition array_length (arr : value) : M nat :=
  fun w =>
    match elements w arr with
    | Some xs => Ok (length xs) w
    | None => Throw "TypeError: not an array"
    end.

(** The element at index [i] as the array is now, if it still has one. *)
Definition current_item (arr : value) (i : nat) : M (option value) :=
  fun w =>
    match elements w arr with
    | Some xs => Ok (xs !! i) w
    | None => Ok None w
    end.

(** [arr.forEach(f)] on a live array. *)
Definition live_forEach (arr : value) (f : value → M unit) : M unit :=
  let* len := array_length arr in
  forEach (seq 0 len) (fun i =>
    let* item := current_item arr i in
    match item with
    | Some x => f x
    | None => ret tt
    end).

Fixpoint mapIndex (i : nat) (xs : list value) (f : value → nat → M value) : M (list value) :=
  match xs with
  | [] => ret []
  | x :: rest =>
      let* y := f x i in
      let* ys := mapIndex (S i) rest f in
      ret (y :: ys)
  end.

(** [arr.map(f)], giving a new array; the callbacks of [loadScope] leave the
    array alone, so its elements are read once. *)
Definition array_map (arr : value) (f : value → nat → M value) : M value :=
  fun w =>
    match elements w arr with
    | Some xs => (let* ys := mapIndex 0 xs f in ret (VArr ys)) w
    | None => Throw "TypeError: not an array"
    end.

Definition math_max (a b : value) : M value :=
  match a, b with
  | VNum x, VNum y => ret (VNum (Z.max x y))
  | _, _ =>
      if number_like a && number_like b then ret VNaN
      else unmodelled "numeric coercion"
  end.

(** Lines 105-108: the shallow copy. *)
Definition copy_scope (scope data : value) : M value :=
  let* props := spread_props scope in
  let* restricted := getp data "restrictedCircuitElementsUsed" in
  alloc (CObj (assoc_set "restrictedCircuitElementsUsed" restricted props)).

(** Lines 116-128, for one entry [tag] of the module list. *)
Definition load_modules_of (tag : string) (data newScope : value) : M unit :=
  let* records := getp data tag in
  if truthy records then
    let* items := doc_items records in
    if String.eqb tag "SubCircuit" then
      forEach items (fun d => loadSubCircuit d newScope)
    else
      forEach items (fun d => loadModule d newScope)
  else ret tt.

(** Lines 110-133: nodes, connections, modules, wires, cleanup. *)
Definition load_elements (fuel : nat) (newScope data : value) : M unit :=
  let* allNodes := getp data "allNodes" in
  let* nodes := doc_items allNodes in
  let* _ := forEach nodes (fun x => loadNode x newScope) in
  let* _ := forIndex 0 nodes (fun i d =>
              let* live := getp newScope "allNodes" in
              let* node := geti live i in
              constructNodeConnections node d) in
  let* _ := forEach moduleList (fun tag => load_modules_of tag data newScope) in
  let* wires := getp newScope "wires" in
  let* _ := live_forEach wires (fun x => wire_updateData x newScope) in
  removeBugNodes fuel newScope.

(** Lines 135-149. *)
Definition restore_metadata (newScope data : value) : M unit :=
  let* verilogMetadata := getp data "verilogMetadata" in
  let* _ := if truthy verilogMetadata
            then setp newScope "verilogMetadata" verilogMetadata
            else ret tt in
  let* testbenchData := getp data "testbenchData" in
  if truthy testbenchData then
    let* testData := getp testbenchData "testData" in
    let* currentGroup := getp testbenchData "currentGroup" in
    let* currentCase := getp testbenchData "currentCase" in
    setp newScope "testbenchData" (TestbenchData testData currentGroup currentCase)
  else ret tt.

(** [newScope.layout.height / 2 - newScope.<ports>.length * 10 + 20 * i + 10] *)
Definition port_y (newScope : value) (ports : string) (i : nat) : M value :=
  let* layout := getp newScope "layout" in
  let* height := getp layout "height" in
  let* h2 := half height in
  let* arr := getp newScope ports in
  let* n := getp arr "length" in
  let* n10 := arith Z.mul n (VNum 10) in
  let* a := arith Z.sub h2 n10 in
  let* b := arith Z.add a (VNum (20 * Z.of_nat i)) in
  arith Z.add b (VNum 10).

(** Lines 164-171: the copy of one input with its layout properties. *)
Definition input_layout (newScope input : value) (i : nat) : M value :=
  let* props := spread_props input in
  let* y := port_y newScope "Input" i in
  let* gid := fresh_id in
  ret (VObj (assoc_set "layoutProperties"
               (VObj [("x", VNum 0); ("y", y); ("id", gid)]) props)).

(** Lines 172-179. *)
Definition output_layout (newScope output : value) (i : nat) : M value :=
  let* props := spread_props output in
  let* layout := getp newScope "layout" in
  let* width := getp layout "width" in
  let* y := port_y newScope "Output" i in
  let* gid := fresh_id in
  ret (VObj (assoc_set "layoutProperties"
               (VObj [("x", width); ("y", y); ("id", gid)]) props)).

(** Lines 155-180: the layout of documents that never stored one. *)
Definition synthesize_layout (newScope : value) : M unit :=
  let* Input := getp newScope "Input" in
  let* nin := getp Input "length" in
  let* Output := getp newScope "Output" in
  let* nout := getp Output "length" in
  let* most := math_max nin nout in
  let* m20 := arith Z.mul most (VNum 20) in
  let* height := arith Z.add m20 (VNum 20) in
  let newLayout := VObj [("width", VNum 100); ("height", height);
                         ("title_x", VNum 50); ("title_y", VNum 13)] in
  let* _ := setp newScope "layout" newLayout in
  let* Input := getp newScope "Input" in
  let* inputLayouts := array_map Input (input_layout newScope) in
  let* Output := getp newScope "Output" in
  let* outputLayouts := array_map Output (output_layout newScope) in
  let* _ := setp newScope "Input" inputLayouts in
  setp newScope "Output" outputLayouts.

(** Lines 151-181. *)
Definition resolve_layout (newScope data : value) : M unit :=
  let* layout := getp data "layout" in
  if truthy layout then setp newScope "layout" layout
  else synthesize_layout newScope.

(** Lines 182-185. *)
Definition default_titleEnabled (newScope : value) : M unit :=
  let* layout := getp newScope "layout" in
  let* titleEnabled := getp layout "titleEnabled" in
  if is_undefined titleEnabled then
    let* props := spread_props layout in
    setp newScope "layout" (VObj (assoc_set "titleEnabled" (VBool true) props))
  else ret tt.

Definition loadScope (fuel : nat) (scope data : value) : M value :=
  let* newScope := copy_scope scope data in
  let* _ := load_elements fuel newScope data in
  let* _ := restore_metadata newScope data in
  let* _ := resolve_layout newScope data in
  let* _ := default_titleEnabled newScope in
  ret newScope.

(** ** load (lines 197-268): the body of the loop over [data.scopes],
    lines 213-237, for one scope document. *)

(** Lines 213-220: the flags and the new circuit. *)
Definition create_scope (scopeDoc : value) : M value :=
  let* verilogMetadata := getp scopeDoc "verilogMetadata" in
  let* isVerilogCircuit :=
    if truthy verilogMetadata then getp verilogMetadata "isVerilogCircuit"
    else ret (VBool false) in
  let* isMainCircuit :=
    if truthy verilogMetadata then getp verilogMetadata "isMainCircuit"
    else ret (VBool false) in
  let* name := getp scopeDoc "name" in
  let* sid := getp scopeDoc "id" in
  newCircuit (js_or name (VStr "Untitled")) sid isVerilogCircuit isMainCircuit.

Definition load_scope_entry (fuel : nat) (scopeDoc : value) : M unit :=
  let* scope := create_scope scopeDoc in
  let* _ := loadScope fuel scope scopeDoc in
  let* _ := set_globalScope scope in
  let* current := get_globalScope in
  let* _ := centerFocus current embed in
  let* current := get_globalScope in
  let* _ := update current true in
  let* _ := updateRestrictedElementsInScope in
  scheduleBackup.

End loader.

(** ** Node.delete

    Modelled from the spec: [Node.delete] lives in '../node', which is not
    among the sources.  The specification has the cleanup pass delete a node
    from the scope's node list, the nodes after it shifting down; this is
    that removal, in place, from the [allNodes] array of [scope]. *)
Definition same_ref (a b : value) : bool :=
  match a, b with
  | VRef x, VRef y => x =? y
  | _, _ => false
  end.

Definition delete_from (scope node : value) : M unit :=
  let* allNodes := getp scope "allNodes" in
  fun w =>
    match allNodes with
    | VRef l =>
        match heap w !! l with
        | Some (CArr xs) =>
            Ok tt (set_cell l (CArr (filter (fun x => same_ref x node = false) xs)) w)
        | _ => Unmodelled "the node list is not an array"
        end
    | _ => Unmodelled "the node list is not a live array"
    end.

End Loader.

(* ====================================================================== *)
(** * A small simulator to run the loader in

    Stand-ins for the collaborators, simple but shaped like the real ones:
    elements and nodes are objects of their own that register themselves in
    the arrays of the scope they are given. *)
(* ====================================================================== *)
Module Samples.
Import Loader.

(** [arr.push(x)] *)
Definition push (arr x : value) : M unit :=
  fun w =>
    match arr with
    | VRef l =>
        match heap w !! l with
        | Some (CArr xs) => Ok tt (set_cell l (CArr (xs ++ [x])) w)
        | _ => Throw "TypeError: push is not a function"
        end
    | _ => Throw "TypeError: push is not a function"
    end.

Definition lookup_table (table : list (string * value)) (key : value) : value :=
  match key with
  | VStr s => assoc_get s table
  | _ => VUndef
  end.

Definition fixDirection_table : list (string * value) :=
  [("right", VStr "LEFT"); ("left", VStr "RIGHT"); ("down", VStr "UP"); ("up", VStr "DOWN");
   ("LEFT", VStr "LEFT"); ("RIGHT", VStr "RIGHT"); ("UP", VStr "UP"); ("DOWN", VStr "DOWN")].

Definition oppositeDirection_table : list (string * value) :=
  [("RIGHT", VStr "LEFT"); ("LEFT", VStr "RIGHT"); ("DOWN", VStr "UP"); ("UP", VStr "DOWN")].

(** A circuit element of type [tag] with the built-in delay [delay]. *)
Definition element (tag : string) (delay : Z) (x y scope : value) (args : list value)
    : M value :=
  let* obj := alloc (CObj [("objectType", VStr tag); ("x", x); ("y", y);
                           ("scope", scope); ("direction", VStr "RIGHT");
                           ("labelDirection", VStr "LEFT");
                           ("propagationDelay", VNum delay)]) in
  let* list := getp scope tag in
  let* _ := push list obj in
  ret obj.

Definition registry (tag : string) : option (value → value → value → list value → M value) :=
  if String.eqb tag "Input" then Some (element "Input" 0)
  else if String.eqb tag "Output" then Some (element "Output" 0)
  else if String.eqb tag "AndGate" then Some (element "AndGate" 10)
  else if String.eqb tag "DflipFlop" then Some (element "DflipFlop" 100)
  else if String.eqb tag "Rom" then Some (element "Rom" 10)
  else None.

Definition fix_element_direction (obj : value) : M unit :=
  let* direction := getp obj "direction" in
  setp obj "direction" (js_or (lookup_table fixDirection_table direction) direction).

(** A node: an object with the serialized type, owned by the root element
    of the scope and registered in the scope's node list. *)
Definition load_node (x scope : value) : M unit :=
  let* type := getp x "type" in
  let* root := getp scope "root" in
  let* node := alloc (CObj [("type", type); ("parent", root)]) in
  let* allNodes := getp scope "allNodes" in
  push allNodes node.

Definition delete_node (node : value) : M unit :=
  let* parent := getp node "parent" in
  let* scope := getp parent "scope" in
  delete_from scope node.

(** A new, empty circuit: its arrays, its root element and the scope object
    with the layout a new scope starts with. *)
Definition new_circuit (name sid isVerilog isMain : value) : M value :=
  let* allNodes := alloc (CArr []) in
  let* wires := alloc (CArr []) in
  let* inputs := alloc (CArr []) in
  let* outputs := alloc (CArr []) in
  let* gates := alloc (CArr []) in
  let* root := alloc (CObj [("objectType", VStr "CircuitElement")]) in
  let* scope :=
    alloc (CObj [("id", sid); ("name", name); ("root", root);
                 ("allNodes", allNodes); ("wires", wires);
                 ("Input", inputs); ("Output", outputs); ("AndGate", gates);
                 ("layout", VObj [("width", VNum 100); ("height", VNum 40);
                                  ("title_x", VNum 50); ("title_y", VNum 13);
                                  ("titleEnabled", VBool true)])]) in
  let* _ := setp root "scope" scope in
  ret scope.

#[export] Instance simulator : Collaborators := {|
  moduleList := ["Input"; "Output"; "AndGate"; "SubCircuit"];
  modules := registry;
  fixDirection := lookup_table fixDirection_table;
  oppositeDirection := lookup_table oppositeDirection_table;
  element_fixDirection := fix_element_direction;
  replace := fun node _ => ret node;
  loadNode := load_node;
  constructNodeConnections := fun _ _ => ret tt;
  loadSubCircuit := fun _ _ => ret tt;
  wire_updateData := fun _ _ => ret tt;
  node_delete := delete_node;
  TestbenchData := fun testData currentGroup currentCase =>
    VObj [("testData", testData); ("currentGroup", currentGroup);
          ("currentCase", currentCase)];
  generateId := fun n => VStr (pretty n);
  newCircuit := new_circuit;
  embed := false;
  centerFocus := fun _ _ => ret tt;
  update := fun _ _ => ret tt;
  updateRestrictedElementsInScope := ret tt;
  scheduleBackup := ret tt
|}.

Definition empty_world : world := mkWorld [] VUndef 0.

(** The world after [newCircuit("Main", "c1", false, false)]: cells 0-4 are
    the arrays, 5 the root element, 6 the scope. *)
Definition fresh_world : world :=
  match new_circuit (VStr "Main") (VStr "c1") (VBool false) (VBool false) empty_world with
  | Ok _ w => w
  | _ => empty_world
  end.

Definition fresh_scope : value := VRef 6.

(** An AND gate record as the save routine writes it. *)
Definition gate_record (fields : list (string * value)) : value :=
  VObj ([("objectType", VStr "AndGate"); ("x", VNum 10); ("y", VNum 20)] ++ fields).

End Samples.

(* ====================================================================== *)
(** * Properties of the folder panel *)
(* ====================================================================== *)
Module FolderPanelFacts.
Import FolderPanel.

Lemma truthy_str_true s : truthy_str s = true ↔ s ≠ EmptyString.
Proof.
  unfold truthy_str. rewrite negb_true_iff. split.
  - intros H ->. discriminate.
  - intros H. destruct s; [congruence | reflexivity].
Qed.

Lemma truthy_str_false s : truthy_str s = false ↔ s = EmptyString.
Proof.
  unfold truthy_str. rewrite negb_false_iff. apply String.eqb_eq.
Qed.

(** ** Moving a subcircuit *)

Lemma finish_move_backup env sc fid : schedules_backup (finish_move env sc fid) = true.
Proof.
  unfold finish_move, schedules_backup.
  destruct (renderFolderPanel env sc) as [sc' evs]. simpl.
  rewrite existsb_app. simpl. apply orb_true_r.
Qed.

Lemma finish_move_entries env sc fid :
  entries (scope_after (finish_move env sc fid)) = entries (Some sc).
Proof.
  unfold finish_move, renderFolderPanel.
  destruct (folderPanelContainer env); simpl; [|done].
  by destruct (subcircuitMap sc).
Qed.

(** A move to the folder the map already names is a no-op: nothing is
    rendered, scheduled or announced, and the map is as it was. *)
Lemma move_same_folder_noop env sid f sc m :
  truthy_str sid = true → truthy_str f = true →
  is_Some (scopeList env !! sid) →
  subcircuitMap sc = Some m → m !! sid = Some f →
  moveSubcircuitToFolder env sid (Some f) (Some sc) = mkMove (Some sc) [] VUndef.
Proof.
  intros Hs Hf [n Hn] Hm Hsid.
  unfold moveSubcircuitToFolder, move_in_scope. rewrite Hs. simpl.
  rewrite Hm, Hn. simpl. unfold currentFolder. rewrite Hsid, Hf.
  simpl. rewrite String.eqb_refl. f_equal.
  destruct sc as [i fs mp]. simpl in *. unfold with_map. simpl. by subst.
Qed.

(** A move to root of a subcircuit that has no (truthy) map entry compares
    the sentinel "root" with [null], so it is not recognised as a no-op:
    the entries stay as they were, but a backup is scheduled. *)
Lemma move_root_to_root_schedules env sid sc :
  truthy_str sid = true →
  is_Some (scopeList env !! sid) →
  entries (Some sc) !! sid = None →
  let r := moveSubcircuitToFolder env sid None (Some sc) in
  entries (scope_after r) = entries (Some sc) ∧ schedules_backup r = true.
Proof.
  intros Hs [n Hn] Hnone r. subst r.
  unfold moveSubcircuitToFolder, move_in_scope. rewrite Hs. simpl. rewrite Hn.
  simpl. split.
  - rewrite finish_move_entries. simpl in *. by apply delete_id.
  - apply finish_move_backup.
Qed.

(** A session with one main circuit and one subcircuit ["sub1"]; the scope
    has one folder and an empty subcircuit map, so ["sub1"] is in root. *)
Definition sample_env : Env :=
  mkEnv {[ "main" := "Main"; "sub1" := "Adder" ]} None true.

Definition sample_scope : Scope :=
  mkScope "main" (Some [mkFolder "f1" "Arithmetic" None]) (Some ∅).

(** C2 (as far as the code goes).  [moveSubcircuitToFolder("sub1", null,
    scope)] for a subcircuit that has no map entry, hence already sits in
    root: the subcircuit map is left unchanged, but the call is not treated
    as a no-op; the panel is rendered, [scheduleBackup] is called and a
    success message is shown. *)
Theorem move_to_root_in_root_schedules_backup :
  let r := moveSubcircuitToFolder sample_env "sub1" None (Some sample_scope) in
  subcircuitMap <$> scope_after r = Some (subcircuitMap sample_scope)
  ∧ schedules_backup r = true
  ∧ trace r = [PanelRendered (build_dom sample_env sample_scope);
               ScheduleBackup;
               ShowMessage "Subcircuit moved to root successfully"].
Proof. by vm_compute. Qed.







(** ** The folder hierarchy built for display *)



Section hierarchy.
Context (env : Env) (m : gmap string string).


End hierarchy.











(** Why the amended statement asks for acyclic parent links: a folder that
    names itself as parent makes [appendChild] throw, the [catch] at line
    288 ends the loop, and the parentless folder after it is never placed. *)
Example cycle_aborts_placement :
  let fs := [mkFolder "a" "A" (Some "a"); mkFolder "b" "B" None] in
  ∃ sc' dom, createFolderStructure sample_env (Some (mkScope "main" (Some fs) (Some ∅)))
             = Some (sc', dom)
    ∧ hierarchy_error dom = true ∧ placed dom !! 1 = None.
Proof. eexists _, _. split; [reflexivity|]. by vm_compute. Qed.

(** Why it asks for distinct ids: of two folders with one id only the element
    of the later one is registered in [folderElements], and it is that
    element which is appended twice. *)
Example duplicate_id_drops_first :
  let fs := [mkFolder "a" "First" None; mkFolder "a" "Second" None] in
  ∃ sc' dom, createFolderStructure sample_env (Some (mkScope "main" (Some fs) (Some ∅)))
             = Some (sc', dom)
    ∧ hierarchy_error dom = false
    ∧ placed dom !! 0 = None ∧ placed dom !! 1 = Some CRoot.
Proof. eexists _, _. split; [reflexivity|]. by vm_compute. Qed.

End FolderPanelFacts.

(* ====================================================================== *)
(** * Properties of the loader *)
(* ====================================================================== *)
Module LoaderFacts.
Import Loader.

(** ** Reasoning about computations *)

Lemma bind_Ok {A B} (m : M A) (k : A → M B) w b w' :
  bind m k w = Ok b w' ↔ ∃ a w1, m w = Ok a w1 ∧ k a w1 = Ok b w'.
Proof.
  unfold bind. split.
  - destruct (m w) as [a w1| | |]; try discriminate. eauto.
  - intros (a & w1 & -> & Hk). exact Hk.
Qed.

(** Partial correctness: if [m] ends normally from a world in [P], the
    result and the final world are in [Q]. *)
Definition hoare {A} (P : world → Prop) (m : M A) (Q : A → world → Prop) : Prop :=
  ∀ w a w', P w → m w = Ok a w' → Q a w'.

(** [m] only reads the world. *)
Definition reads {A} (m : M A) : Prop := ∀ w a w', m w = Ok a w' → w' = w.

Lemma hoare_ret {A} (P : world → Prop) (a : A) : hoare P (ret a) (λ x w, x = a ∧ P w).
Proof. intros w x w' HP [= <- <-]. done. Qed.

Lemma hoare_bind {A B} P (m : M A) (k : A → M B) Q R :
  hoare P m Q → (∀ a, hoare (Q a) (k a) R) → hoare P (bind m k) R.
Proof.
  intros Hm Hk w b w' HP (a & w1 & H1 & H2)%bind_Ok.
  eapply Hk; [|exact H2]. eapply Hm; eauto.
Qed.

Lemma hoare_conseq {A} (P P' : world → Prop) (m : M A) (Q Q' : A → world → Prop) :
  hoare P' m Q' → (∀ w, P w → P' w) → (∀ a w, Q' a w → Q a w) → hoare P m Q.
Proof. intros Hm HP HQ w a w' Hw Hrun. apply HQ. eapply Hm; eauto. Qed.

Lemma hoare_reads {A} P (m : M A) :
  reads m → hoare P m (λ a w, P w ∧ m w = Ok a w).
Proof. intros Hr w a w' HP Hrun. pose proof (Hr _ _ _ Hrun) as ->. done. Qed.

Lemma hoare_forEach {A} (I : world → Prop) (xs : list A) (f : A → M unit) :
  (∀ x, x ∈ xs → hoare I (f x) (λ _, I)) → hoare I (forEach xs f) (λ _, I).
Proof.
  induction xs as [|x rest IH]; intros Hf; simpl.
  - intros w [] w' HI [= <-]. done.
  - eapply hoare_bind; [apply Hf; left|].
    intros ?. apply IH. intros y Hy. apply Hf. by right.
Qed.

Lemma hoare_forIndex {A} (I : world → Prop) (xs : list A) (f : nat → A → M unit) :
  (∀ i x, hoare I (f i x) (λ _, I)) → ∀ i, hoare I (forIndex i xs f) (λ _, I).
Proof.
  intros Hf. induction xs as [|x rest IH]; intros i; simpl.
  - intros w [] w' HI [= <-]. done.
  - eapply hoare_bind; [apply Hf|]. intros ?. apply IH.
Qed.

(** The operations that only read. *)
Lemma reads_ret {A} (a : A) : reads (ret a).
Proof. by intros w x w' [= _ <-]. Qed.

Lemma reads_throw {A} e : reads (@throw A e).
Proof. by intros w x w'. Qed.

Lemma reads_unmodelled {A} e : reads (@unmodelled A e).
Proof. by intros w x w'. Qed.

Lemma reads_bind {A B} (m : M A) (k : A → M B) :
  reads m → (∀ a, reads (k a)) → reads (bind m k).
Proof.
  intros Hm Hk w b w' (a & w1 & H1 & H2)%bind_Ok.
  apply Hm in H1 as ->. by apply Hk in H2.
Qed.

Lemma reads_getp v k : reads (getp v k).
Proof. intros w x w'. unfold getp. destruct (peek w v k); [|done]. by intros [= _ <-]. Qed.

Lemma reads_geti v i : reads (geti v i).
Proof.
  intros w x w'. unfold geti.
  destruct v; try done; try (by intros [= _ <-]).
  all: simpl; repeat case_match; try done; by intros [= _ <-].
Qed.

Lemma reads_spread_props v : reads (spread_props v).
Proof. intros w x w'. unfold spread_props. destruct (spread w v); [|done]. by intros [= _ <-]. Qed.

Lemma reads_own_keys v : reads (own_keys v).
Proof. intros w x w'. unfold own_keys. destruct (spread w v); [|done]. by intros [= _ <-]. Qed.

Lemma reads_doc_items v : reads (doc_items v).
Proof. destruct v; simpl; auto using reads_ret, reads_throw, reads_unmodelled. Qed.

Lemma reads_instanceof_Array v : reads (instanceof_Array v).
Proof. destruct v; simpl; auto using reads_ret, reads_unmodelled. Qed.

Lemma reads_arith op a b : reads (arith op a b).
Proof.
  unfold arith.
  destruct a, b; try destruct (_ && _); auto using reads_ret, reads_unmodelled.
Qed.

Lemma reads_math_max a b : reads (math_max a b).
Proof.
  unfold math_max.
  destruct a, b; try destruct (_ && _); auto using reads_ret, reads_unmodelled.
Qed.

Lemma reads_half a : reads (half a).
Proof.
  unfold half. destruct a; try destruct (Z.even _); auto using reads_ret, reads_unmodelled.
Qed.

Lemma reads_array_length v : reads (array_length v).
Proof. intros w x w'. unfold array_length. destruct (elements w v); [|done]. by intros [= _ <-]. Qed.

Lemma reads_current_item v i : reads (current_item v i).
Proof. intros w x w'. unfold current_item. destruct (elements w v); by intros [= _ <-]. Qed.

Lemma reads_get_globalScope : reads get_globalScope.
Proof. by intros w x w' [= _ <-]. Qed.

Lemma reads_spread_args v : reads (spread_args v).
Proof.
  unfold spread_args. destruct (js_or v (VArr [])); auto using reads_ret, reads_throw, reads_unmodelled.
Qed.

Create HintDb reads.

#[local] Hint Resolve reads_ret reads_throw reads_unmodelled reads_getp reads_geti
  reads_spread_props reads_own_keys reads_doc_items reads_instanceof_Array
  reads_arith reads_math_max reads_half reads_array_length reads_current_item
  reads_get_globalScope reads_spread_args : reads.

(** ** Slots that stay as they are

    [holds l K σ]: the object at [l] is allocated and each of its
    properties named by [K] has the value [σ] gives it. *)
Definition holds (l : nat) (K : string → Prop) (σ : string → value) (w : world) : Prop :=
  l < length (heap w) ∧ ∀ k, K k → slot w l k = σ k.

(** [m] leaves the [K]-properties of the object at [l] alone. *)
Definition keeps {A} (l : nat) (K : string → Prop) (m : M A) : Prop :=
  ∀ σ, hoare (holds l K σ) m (λ _, holds l K σ).

Lemma keeps_reads {A} l K (m : M A) : reads m → keeps l K m.
Proof. intros Hr σ w a w' HI Hrun. by apply Hr in Hrun as ->. Qed.

Lemma keeps_bind {A B} l K (m : M A) (k : A → M B) :
  keeps l K m → (∀ a, keeps l K (k a)) → keeps l K (bind m k).
Proof. intros Hm Hk σ. eapply hoare_bind; [apply Hm|]. intros a. apply Hk. Qed.

(** The continuation may rely on what [m] establishes about its result. *)
Lemma keeps_bind_post {A B} l K (m : M A) (k : A → M B) (R : A → Prop) :
  keeps l K m → hoare (λ _, True) m (λ a _, R a) →
  (∀ a, R a → keeps l K (k a)) → keeps l K (bind m k).
Proof.
  intros Hm HR Hk σ w b w' HI (a & w1 & H1 & H2)%bind_Ok.
  eapply (Hk a); [eapply HR; eauto| |exact H2]. eapply Hm; eauto.
Qed.

Lemma keeps_forEach {A} l K (xs : list A) (f : A → M unit) :
  (∀ x, x ∈ xs → keeps l K (f x)) → keeps l K (forEach xs f).
Proof. intros Hf σ. apply hoare_forEach. intros x Hx. by apply Hf. Qed.

Lemma keeps_forIndex {A} l K (xs : list A) (f : nat → A → M unit) i :
  (∀ i x, keeps l K (f i x)) → keeps l K (forIndex i xs f).
Proof. intros Hf σ. apply hoare_forIndex. intros j x. apply Hf. Qed.

Lemma slot_set_cell_ne w l l' c k : l ≠ l' → slot (set_cell l' c w) l k = slot w l k.
Proof. intros Hne. unfold slot, set_cell. simpl. by rewrite list_lookup_insert_ne. Qed.

Lemma assoc_get_set_eq k v kvs : assoc_get k (assoc_set k v kvs) = v.
Proof.
  induction kvs as [|[k' v'] rest IH]; simpl.
  - by rewrite String.eqb_refl.
  - destruct (String.eqb k k') eqn:E; simpl; rewrite ?String.eqb_refl, ?E; done.
Qed.

Lemma assoc_get_set_ne k k' v kvs : k ≠ k' → assoc_get k (assoc_set k' v kvs) = assoc_get k kvs.
Proof.
  intros Hne. apply String.eqb_neq in Hne.
  induction kvs as [|[k2 v2] rest IH]; simpl.
  - by rewrite Hne.
  - destruct (String.eqb k' k2) eqn:E; simpl.
    + apply String.eqb_eq in E as ->. by rewrite Hne.
    + destruct (String.eqb k k2); [done|apply IH].
Qed.

(** A property write leaves the guarded slots alone when it goes to another
    object or to a property that is not guarded. *)
Lemma keeps_setp l K v k x : v ≠ VRef l ∨ ¬ K k → keeps l K (setp v k x).
Proof.
  intros Hsafe σ w a w' [Hlen Hs]. unfold setp.
  destruct v as [| | | | | |l'| |]; try done.
  destruct (heap w !! l') as [[fields|items]|] eqn:Hcell; try done.
  intros [= _ <-]. split.
  - unfold set_cell. simpl. by rewrite length_insert.
  - intros k0 Hk0. rewrite <- (Hs k0 Hk0).
    destruct (decide (l = l')) as [<-|Hne]; [|by apply slot_set_cell_ne].
    destruct Hsafe as [Hv|HK]; [done|].
    unfold slot, set_cell. simpl. rewrite list_lookup_insert_eq by done.
    rewrite Hcell. apply assoc_get_set_ne. intros ->. done.
Qed.

(** An indexed write only ever changes an array. *)
Lemma keeps_seti l K v i x : keeps l K (seti v i x).
Proof.
  intros σ w a w' [Hlen Hs]. unfold seti.
  destruct v as [| | | | | |l'| |]; try done.
  destruct (heap w !! l') as [[fields|items]|] eqn:Hcell; try done.
  intros [= _ <-]. split.
  - unfold set_cell. simpl. by rewrite length_insert.
  - intros k0 Hk0. rewrite <- (Hs k0 Hk0).
    destruct (decide (l = l')) as [<-|Hne]; [|by apply slot_set_cell_ne].
    unfold slot, set_cell. simpl. rewrite list_lookup_insert_eq by done.
    by rewrite Hcell.
Qed.

Lemma keeps_alloc l K c : keeps l K (alloc c).
Proof.
  intros σ w a w' [Hlen Hs] [= _ <-]. split; simpl.
  - rewrite length_app. lia.
  - intros k Hk. rewrite <- (Hs k Hk). unfold slot. simpl.
    by rewrite lookup_app_l.
Qed.

Lemma keeps_fresh_id `{Collaborators} l K : keeps l K fresh_id.
Proof. intros σ w a w' HI [= _ <-]. exact HI. Qed.

Lemma keeps_set_globalScope l K v : keeps l K (set_globalScope v).
Proof. intros σ w a w' HI [= _ <-]. exact HI. Qed.

Lemma getp_Ok v k w x w' : getp v k w = Ok x w' ↔ w' = w ∧ peek w v k = Some x.
Proof.
  unfold getp. destruct (peek w v k); split; try done.
  - by intros [= -> ->].
  - by intros [-> [= ->]].
  - by intros [_ ?].
Qed.

Lemma own_keys_Ok v w ks w' :
  own_keys v w = Ok ks w' ↔ w' = w ∧ ∃ kvs, spread w v = Some kvs ∧ ks = kvs.*1.
Proof.
  unfold own_keys. destruct (spread w v) as [kvs|]; split; try done.
  - intros [= <- <-]. eauto.
  - by intros [-> (? & [= <-] & ->)].
  - by intros [_ (? & ? & _)].
Qed.

(** The property names [restore_values] and [replace_nodes] go through:
    the own keys of [data.customData.values] or [data.customData.nodes]. *)
Definition overlay_keys (w : world) (data : value) (part : string) : list string :=
  match peek w data "customData" with
  | Some customData =>
      match peek w customData part with
      | Some v =>
          if truthy v then
            match spread w v with
            | Some kvs => kvs.*1
            | None => []
            end
          else []
      | None => []
      end
  | None => []
  end.

Section frames.
Context `{Collaborators}.
Variables (l : nat) (K : string → Prop).

Ltac keeps_auto :=
  repeat first
    [ apply keeps_reads; solve [auto with reads]
    | apply keeps_seti
    | apply keeps_alloc
    | apply keeps_fresh_id
    | apply keeps_set_globalScope
    | apply keeps_setp; solve [auto]
    | apply keeps_bind; [|intros ?] ].

Lemma keeps_if {A} (b : bool) (m1 m2 : M A) :
  keeps l K m1 → keeps l K m2 → keeps l K (if b then m1 else m2).
Proof. by destruct b. Qed.

Lemma keeps_set_label data obj :
  obj ≠ VRef l ∨ (¬ K "label" ∧ ¬ K "labelDirection") →
  keeps l K (set_label data obj).
Proof.
  intros Hsafe. unfold set_label.
  apply keeps_bind; [keeps_auto|intros label].
  apply keeps_bind; [apply keeps_setp; tauto|intros ?].
  apply keeps_bind; [keeps_auto|intros ld].
  apply keeps_bind; [|intros ?; apply keeps_setp; tauto].
  apply keeps_if; keeps_auto.
Qed.

Lemma keeps_set_delay data obj :
  obj ≠ VRef l ∨ ¬ K "propagationDelay" →
  keeps l K (set_delay data obj).
Proof.
  intros Hsafe. unfold set_delay.
  apply keeps_bind; [keeps_auto|intros pd].
  apply keeps_if; [by apply keeps_setp|].
  apply keeps_bind; [apply keeps_if; keeps_auto|intros ?; by apply keeps_setp].
Qed.

Lemma keeps_restore_values data obj :
  (∀ w prop, prop ∈ overlay_keys w data "values" → obj ≠ VRef l ∨ ¬ K prop) →
  keeps l K (restore_values data obj).
Proof.
  intros Hsafe σ w a w' HI. unfold restore_values.
  intros (cd & ? & [-> Hcd]%getp_Ok & Hrun)%bind_Ok.
  apply bind_Ok in Hrun as (vals & ? & [-> Hvals]%getp_Ok & Hrun).
  destruct (truthy vals) eqn:Htr; [|by injection Hrun as _ <-].
  apply bind_Ok in Hrun as (props & ? & [-> (kvs & Hkvs & ->)]%own_keys_Ok & Hrun).
  eapply (hoare_forEach (holds l K σ)); [|exact HI|exact Hrun].
  intros prop Hprop. apply keeps_bind; [keeps_auto|intros v].
  apply keeps_setp. apply (Hsafe w). unfold overlay_keys.
  by rewrite Hcd, Hvals, Htr, Hkvs.
Qed.

Lemma keeps_attach_subcircuitMetadata data obj :
  obj ≠ VRef l ∨ ¬ K "subcircuitMetadata" →
  keeps l K (attach_subcircuitMetadata data obj).
Proof.
  intros Hsafe. unfold attach_subcircuitMetadata.
  apply keeps_bind; [keeps_auto|intros meta].
  apply keeps_if; [by apply keeps_setp|keeps_auto].
Qed.

Lemma keeps_replace_nodes data obj :
  (∀ a b, keeps l K (replace a b)) →
  (∀ w node, node ∈ overlay_keys w data "nodes" → obj ≠ VRef l ∨ ¬ K node) →
  keeps l K (replace_nodes data obj).
Proof.
  intros Hrep Hsafe σ w a w' HI. unfold replace_nodes.
  intros (cd & ? & [-> Hcd]%getp_Ok & Hrun)%bind_Ok.
  apply bind_Ok in Hrun as (nodes & ? & [-> Hnodes]%getp_Ok & Hrun).
  destruct (truthy nodes) eqn:Htr; [|by injection Hrun as _ <-].
  apply bind_Ok in Hrun as (names & ? & [-> (kvs & Hkvs & ->)]%own_keys_Ok & Hrun).
  eapply (hoare_forEach (holds l K σ)); [|exact HI|exact Hrun].
  intros node Hnode.
  assert (obj ≠ VRef l ∨ ¬ K node) as Hnode'.
  { apply (Hsafe w). unfold overlay_keys. by rewrite Hcd, Hnodes, Htr, Hkvs. }
  apply keeps_bind; [keeps_auto|intros n].
  apply keeps_bind; [keeps_auto|intros is_array].
  apply keeps_if.
  - apply keeps_bind; [keeps_auto|intros ns].
    apply keeps_forIndex. intros i ni.
    apply keeps_bind; [keeps_auto|intros target].
    apply keeps_bind; [keeps_auto|intros old].
    apply keeps_bind; [apply Hrep|intros new]. apply keeps_seti.
  - apply keeps_bind; [keeps_auto|intros old].
    apply keeps_bind; [apply Hrep|intros new]. by apply keeps_setp.
Qed.

(** Lines 52-78 leave a guarded property of the element itself alone as
    long as neither overlay names it. *)
Lemma keeps_element_tail data obj :
  keeps l K (element_fixDirection obj) →
  (∀ a b, keeps l K (replace a b)) →
  (∀ w prop, prop ∈ overlay_keys w data "values" → obj ≠ VRef l ∨ ¬ K prop) →
  (∀ w node, node ∈ overlay_keys w data "nodes" → obj ≠ VRef l ∨ ¬ K node) →
  obj ≠ VRef l ∨ ¬ K "subcircuitMetadata" →
  keeps l K (let* _ := element_fixDirection obj in
             let* _ := restore_values data obj in
             let* _ := replace_nodes data obj in
             attach_subcircuitMetadata data obj).
Proof.
  intros Hfix Hrep Hvals Hnodes Hmeta.
  apply keeps_bind; [exact Hfix|intros ?].
  apply keeps_bind; [by apply keeps_restore_values|intros ?].
  apply keeps_bind; [by apply keeps_replace_nodes|intros ?].
  by apply keeps_attach_subcircuitMetadata.
Qed.

(** What the frame property of [loadScope] asks of the collaborators, for
    the object at [l]: none of them writes a guarded property of that
    object, unless it is the scope or element they were handed; and a
    constructor returns an object of its own. *)
Record quiet : Prop := {
  quiet_ctor : ∀ tag ctor x y sc args,
    modules tag = Some ctor → sc ≠ VRef l → keeps l K (ctor x y sc args);
  quiet_ctor_fresh : ∀ tag ctor x y sc args,
    modules tag = Some ctor →
    hoare (λ w, l < length (heap w)) (ctor x y sc args) (λ obj _, obj ≠ VRef l);
  quiet_fixDirection : ∀ obj, obj ≠ VRef l → keeps l K (element_fixDirection obj);
  quiet_replace : ∀ a b, keeps l K (replace a b);
  quiet_loadNode : ∀ x sc, sc ≠ VRef l → keeps l K (loadNode x sc);
  quiet_connections : ∀ a b, keeps l K (constructNodeConnections a b);
  quiet_loadSubCircuit : ∀ d sc, sc ≠ VRef l → keeps l K (loadSubCircuit d sc);
  quiet_updateData : ∀ x sc, sc ≠ VRef l → keeps l K (wire_updateData x sc);
  quiet_delete : ∀ n, keeps l K (node_delete n)
}.

Lemma keeps_restore_element data obj :
  quiet → obj ≠ VRef l → keeps l K (restore_element data obj).
Proof.
  intros Hq Hobj. unfold restore_element.
  apply keeps_bind; [apply keeps_set_label; by left|intros ?].
  apply keeps_bind; [apply keeps_set_delay; by left|intros ?].
  apply keeps_element_tail; auto using quiet_fixDirection, quiet_replace.
Qed.

Lemma keeps_loadModule data sc :
  quiet → sc ≠ VRef l → keeps l K (loadModule data sc).
Proof.
  intros Hq Hsc σ w a w' HI. unfold loadModule.
  intros (obj & w1 & Hcons & Hrun)%bind_Ok.
  assert (holds l K σ w1 ∧ obj ≠ VRef l) as [HI1 Hobj].
  { unfold construct in Hcons.
    apply bind_Ok in Hcons as (ot & ? & [-> _]%getp_Ok & Hcons).
    apply bind_Ok in Hcons as (x & ? & [-> _]%getp_Ok & Hcons).
    apply bind_Ok in Hcons as (y & ? & [-> _]%getp_Ok & Hcons).
    apply bind_Ok in Hcons as (cd & ? & [-> _]%getp_Ok & Hcons).
    apply bind_Ok in Hcons as (ps & ? & [-> _]%getp_Ok & Hcons).
    apply bind_Ok in Hcons as (args & ? & Hargs & Hcons).
    apply reads_spread_args in Hargs as ->.
    destruct (rectifyObjectType ot) as [| | | | |tag| | |]; try done.
    destruct (modules tag) as [ctor|] eqn:Hctor; [|done].
    split.
    - eapply (quiet_ctor Hq); eauto.
    - eapply (quiet_ctor_fresh Hq); eauto. apply HI. }
  eapply keeps_restore_element; eauto.
Qed.

Lemma keeps_removeBugNodes_loop sc :
  quiet → ∀ fuel i x, keeps l K (removeBugNodes_loop fuel sc i x).
Proof.
  intros Hq. induction fuel as [|fuel IH]; intros i x; simpl.
  - by intros σ w a w'.
  - apply keeps_if; [|keeps_auto].
    apply keeps_bind; [keeps_auto|intros allNodes].
    apply keeps_bind; [keeps_auto|intros node].
    apply keeps_bind; [keeps_auto|intros type].
    apply keeps_bind; [apply keeps_if; keeps_auto|intros bug].
    apply keeps_bind; [apply keeps_if; [apply (quiet_delete Hq)|keeps_auto]|intros ?].
    apply keeps_bind; [keeps_auto|intros allNodes'].
    apply keeps_bind; [keeps_auto|intros len].
    apply keeps_if; apply IH.
Qed.

Lemma keeps_removeBugNodes fuel sc : quiet → keeps l K (removeBugNodes fuel sc).
Proof.
  intros Hq. unfold removeBugNodes.
  apply keeps_bind; [apply keeps_if; keeps_auto|intros sc'].
  apply keeps_bind; [keeps_auto|intros allNodes].
  apply keeps_bind; [keeps_auto|intros x].
  by apply keeps_removeBugNodes_loop.
Qed.

Lemma keeps_live_forEach arr (f : value → M unit) :
  (∀ x, keeps l K (f x)) → keeps l K (live_forEach arr f).
Proof.
  intros Hf. unfold live_forEach.
  apply keeps_bind; [keeps_auto|intros len].
  apply keeps_forEach. intros i _.
  apply keeps_bind; [keeps_auto|intros [x|]]; [apply Hf|keeps_auto].
Qed.

Lemma keeps_load_elements fuel sc data :
  quiet → sc ≠ VRef l → keeps l K (load_elements fuel sc data).
Proof.
  intros Hq Hsc. unfold load_elements.
  apply keeps_bind; [keeps_auto|intros allNodes].
  apply keeps_bind; [keeps_auto|intros nodes].
  apply keeps_bind; [apply keeps_forEach; intros x _; by apply (quiet_loadNode Hq)|intros ?].
  apply keeps_bind.
  { apply keeps_forIndex. intros i d.
    apply keeps_bind; [keeps_auto|intros live].
    apply keeps_bind; [keeps_auto|intros node].
    apply (quiet_connections Hq). }
  intros ?. apply keeps_bind.
  { apply keeps_forEach. intros tag _. unfold load_modules_of.
    apply keeps_bind; [keeps_auto|intros records].
    apply keeps_if; [|keeps_auto].
    apply keeps_bind; [keeps_auto|intros items].
    apply keeps_if; apply keeps_forEach; intros d _.
    - by apply (quiet_loadSubCircuit Hq).
    - by apply keeps_loadModule. }
  intros ?. apply keeps_bind; [keeps_auto|intros wires].
  apply keeps_bind.
  { apply keeps_live_forEach. intros x. by apply (quiet_updateData Hq). }
  intros ?. by apply keeps_removeBugNodes.
Qed.

Lemma keeps_restore_metadata sc data : sc ≠ VRef l → keeps l K (restore_metadata sc data).
Proof.
  intros Hsc. unfold restore_metadata.
  apply keeps_bind; [keeps_auto|intros vm].
  apply keeps_bind; [apply keeps_if; keeps_auto|intros ?].
  apply keeps_bind; [keeps_auto|intros tb].
  apply keeps_if; keeps_auto.
Qed.

Lemma keeps_mapIndex (f : value → nat → M value) xs :
  (∀ x i, keeps l K (f x i)) → ∀ i, keeps l K (mapIndex i xs f).
Proof.
  intros Hf. induction xs as [|x rest IH]; intros i; simpl; [keeps_auto|].
  apply keeps_bind; [apply Hf|intros y].
  apply keeps_bind; [apply IH|intros ys]. keeps_auto.
Qed.

Lemma keeps_array_map arr (f : value → nat → M value) :
  (∀ x i, keeps l K (f x i)) → keeps l K (array_map arr f).
Proof.
  intros Hf σ w a w' HI. unfold array_map.
  destruct (elements w arr) as [xs|]; [|done].
  assert (keeps l K (let* ys := mapIndex 0 xs f in ret (VArr ys))) as Hk.
  { apply keeps_bind; [by apply keeps_mapIndex|intros ys; keeps_auto]. }
  intros Hrun. exact (Hk σ w a w' HI Hrun).
Qed.

Lemma keeps_port_y sc ports i : keeps l K (port_y sc ports i).
Proof. unfold port_y. keeps_auto. Qed.

Lemma keeps_resolve_layout sc data : sc ≠ VRef l → keeps l K (resolve_layout sc data).
Proof.
  intros Hsc. unfold resolve_layout.
  apply keeps_bind; [keeps_auto|intros layout].
  apply keeps_if; [keeps_auto|].
  unfold synthesize_layout.
  do 7 (apply keeps_bind; [keeps_auto|intros ?]).
  apply keeps_bind; [keeps_auto|intros ?].
  apply keeps_bind; [keeps_auto|intros ?].
  apply keeps_bind.
  { apply keeps_array_map. intros x i. unfold input_layout.
    apply keeps_bind; [keeps_auto|intros ?].
    apply keeps_bind; [apply keeps_port_y|intros ?]. keeps_auto. }
  intros ?. apply keeps_bind; [keeps_auto|intros ?].
  apply keeps_bind.
  { apply keeps_array_map. intros x i. unfold output_layout.
    do 3 (apply keeps_bind; [keeps_auto|intros ?]).
    apply keeps_bind; [apply keeps_port_y|intros ?]. keeps_auto. }
  intros ?. keeps_auto.
Qed.

Lemma keeps_default_titleEnabled sc : sc ≠ VRef l → keeps l K (default_titleEnabled sc).
Proof.
  intros Hsc. unfold default_titleEnabled.
  apply keeps_bind; [keeps_auto|intros layout].
  apply keeps_bind; [keeps_auto|intros te].
  apply keeps_if; keeps_auto.
Qed.

(** [loadScope] writes only to the copy it allocates. *)
Lemma keeps_loadScope fuel scope data : quiet → keeps l K (loadScope fuel scope data).
Proof.
  intros Hq σ w a w' HI. unfold loadScope.
  intros (newScope & w1 & Hcopy & Hrun)%bind_Ok.
  assert (holds l K σ w1 ∧ newScope ≠ VRef l) as [HI1 Hne].
  { unfold copy_scope in Hcopy.
    apply bind_Ok in Hcopy as (props & ? & ->%reads_spread_props & Hcopy).
    apply bind_Ok in Hcopy as (r & ? & [-> _]%getp_Ok & Hcopy).
    split; [eapply keeps_alloc; eauto|].
    injection Hcopy as <- _. intros [= Heq]. destruct HI as [Hlen _]. lia. }
  assert (keeps l K (let* _ := load_elements fuel newScope data in
                     let* _ := restore_metadata newScope data in
                     let* _ := resolve_layout newScope data in
                     let* _ := default_titleEnabled newScope in
                     ret newScope)) as Hk.
  { apply keeps_bind; [by apply keeps_load_elements|intros ?].
    apply keeps_bind; [by apply keeps_restore_metadata|intros ?].
    apply keeps_bind; [by apply keeps_resolve_layout|intros ?].
    apply keeps_bind; [by apply keeps_default_titleEnabled|intros ?]. keeps_auto. }
  exact (Hk σ w1 a w' HI1 Hrun).
Qed.

End frames.

(** ** Property writes *)

Lemma setp_Ok v k x w w' :
  setp v k x w = Ok tt w' ↔
  ∃ l fields, v = VRef l ∧ heap w !! l = Some (CObj fields)
              ∧ w' = set_cell l (CObj (assoc_set k x fields)) w.
Proof.
  unfold setp. split.
  - destruct v as [| | | | | |l| |]; try done.
    destruct (heap w !! l) as [[fields|items]|] eqn:Hcell; try done.
    intros [= <-]. eauto.
  - intros (l & fields & -> & -> & ->). done.
Qed.

Lemma slot_after_setp l k x w w' :
  setp (VRef l) k x w = Ok tt w' →
  l < length (heap w) ∧ slot w' l k = x ∧ ∀ k', k' ≠ k → slot w' l k' = slot w l k'.
Proof.
  intros (l' & fields & [= <-] & Hcell & ->)%setp_Ok.
  pose proof (lookup_lt_Some _ _ _ Hcell) as Hlt.
  unfold slot, set_cell. simpl. rewrite list_lookup_insert_eq by done. rewrite Hcell.
  split; [done|]. split; [apply assoc_get_set_eq|].
  intros k' Hne. by apply assoc_get_set_ne.
Qed.

Lemma peek_slot w l k x :
  l < length (heap w) → peek w (VRef l) k = Some x →
  (∃ fields, heap w !! l = Some (CObj fields)) → slot w l k = x.
Proof.
  intros _ Hpeek (fields & Hcell). unfold slot. simpl in Hpeek.
  rewrite Hcell in *. by injection Hpeek.
Qed.

Section elements.
Context `{Collaborators}.

(** ** Type tags (C7) *)


Lemma setp_leaves_object l k x w w' :
  setp (VRef l) k x w = Ok tt w' → ∃ fields, heap w' !! l = Some (CObj fields).
Proof.
  intros (l' & fields & [= <-] & Hcell & ->)%setp_Ok.
  pose proof (lookup_lt_Some _ _ _ Hcell) as Hlt.
  unfold set_cell. simpl. rewrite list_lookup_insert_eq by done. eauto.
Qed.

Lemma getp_object l k w x w' fields :
  heap w !! l = Some (CObj fields) → getp (VRef l) k w = Ok x w' → x = slot w l k.
Proof.
  intros Hcell [_ Hpeek]%getp_Ok. unfold slot. simpl in Hpeek.
  rewrite Hcell in *. by injection Hpeek.
Qed.

Lemma getp_doc kvs k w x w' : getp (VObj kvs) k w = Ok x w' → x = assoc_get k kvs ∧ w' = w.
Proof. by intros [-> [= <-]]%getp_Ok. Qed.


(** Lines 47-51. *)
Lemma set_delay_post kvs lo w w' :
  set_delay (VObj kvs) (VRef lo) w = Ok tt w' →
  (∃ fields, heap w !! lo = Some (CObj fields)) →
  slot w' lo "propagationDelay" =
      (if is_num (assoc_get "propagationDelay" kvs) 0 then VNum 0
       else if truthy (assoc_get "propagationDelay" kvs)
            then assoc_get "propagationDelay" kvs
            else slot w lo "propagationDelay")
  ∧ (∀ k, k ≠ "propagationDelay" → slot w' lo k = slot w lo k)
  ∧ lo < length (heap w').
Proof.
  unfold set_delay.
  intros (pd & ? & [-> ->]%getp_doc & Hrun)%bind_Ok (fields & Hcell).
  assert (∀ x w0, setp (VRef lo) "propagationDelay" x w0 = Ok tt w' → lo < length (heap w'))
    as Hvalid.
  { intros x w0 (f & Hf)%setp_leaves_object. by apply lookup_lt_Some in Hf. }
  destruct (is_num (assoc_get "propagationDelay" kvs) 0).
  - pose proof (Hvalid _ _ Hrun). by apply slot_after_setp in Hrun as (_ & ? & ?).
  - apply bind_Ok in Hrun as (delay & w1 & Hdelay & Hset).
    pose proof (Hvalid _ _ Hset).
    assert (w1 = w ∧ delay = if truthy (assoc_get "propagationDelay" kvs)
                             then assoc_get "propagationDelay" kvs
                             else slot w lo "propagationDelay") as [-> ->].
    { destruct (truthy (assoc_get "propagationDelay" kvs)).
      - by injection Hdelay as <- <-.
      - pose proof (reads_getp _ _ _ _ _ Hdelay) as ->.
        by apply (getp_object _ _ _ _ _ _ Hcell) in Hdelay as ->. }
    by apply slot_after_setp in Hset as (_ & ? & ?).
Qed.

Lemma set_label_leaves_object kvs lo w w' :
  set_label (VObj kvs) (VRef lo) w = Ok tt w' → ∃ fields, heap w' !! lo = Some (CObj fields).
Proof.
  unfold set_label.
  intros (label & ? & _ & Hrun)%bind_Ok.
  apply bind_Ok in Hrun as ([] & w1 & _ & Hrun).
  apply bind_Ok in Hrun as (ld & ? & _ & Hrun).
  apply bind_Ok in Hrun as (dir & w2 & _ & Hset2).
  by apply setp_leaves_object in Hset2.
Qed.

(** What a successful [loadModule] run is made of. *)
Lemma loadModule_steps data scope w obj w1 w' :
  construct data scope w = Ok obj w1 →
  loadModule data scope w = Ok tt w' →
  ∃ w2 w3,
    set_label data obj w1 = Ok tt w2
    ∧ set_delay data obj w2 = Ok tt w3
    ∧ (let* _ := element_fixDirection obj in
       let* _ := restore_values data obj in
       let* _ := replace_nodes data obj in
       attach_subcircuitMetadata data obj) w3 = Ok tt w'.
Proof.
  intros Hcons. unfold loadModule.
  intros (obj' & w1' & Hcons' & Hrun)%bind_Ok.
  rewrite Hcons in Hcons'. injection Hcons' as <- <-.
  unfold restore_element in Hrun.
  apply bind_Ok in Hrun as ([] & w2 & Hlabel & Hrun).
  apply bind_Ok in Hrun as ([] & w3 & Hdelay & Hrun).
  eauto.
Qed.



End elements.

(** ** Runs in the sample simulator *)
Import Samples.

Lemma keeps_fix_element_direction l k obj :
  k ≠ "direction" → keeps l (eq k) (Samples.fix_element_direction obj).
Proof.
  intros Hne. unfold Samples.fix_element_direction.
  apply keeps_bind; [apply keeps_reads, reads_getp|intros d].
  apply keeps_setp. right. congruence.
Qed.









(** ** Layout resolution (C8, C9) *)

Lemma peek_heap w1 w2 v k : heap w1 = heap w2 → peek w1 v k = peek w2 v k.
Proof. intros Hh. unfold peek. by rewrite Hh. Qed.

Lemma elements_heap w1 w2 v : heap w1 = heap w2 → elements w1 v = elements w2 v.
Proof. intros Hh. unfold elements. by rewrite Hh. Qed.

Lemma array_map_Ok arr f w v w' :
  array_map arr f w = Ok v w' →
  ∃ xs ys, elements w arr = Some xs ∧ mapIndex 0 xs f w = Ok ys w' ∧ v = VArr ys.
Proof.
  unfold array_map. destruct (elements w arr) as [xs|]; [|done].
  intros (ys & w1 & Hmap & [= <- <-])%bind_Ok. eauto.
Qed.

(** An array that is still an array after a property write to the object at
    [nl] had this length before the write. *)
Lemma elements_after_setp w nl c v xs :
  elements (set_cell nl (CObj c) w) v = Some xs →
  elements w v = Some xs ∧ peek w v "length" = Some (VNum (Z.of_nat (length xs))).
Proof.
  destruct v as [| | | | | |a|ys|]; try done; simpl.
  - destruct (decide (a = nl)) as [->|Hne].
    + destruct (decide (nl < length (heap w))) as [Hlt|Hge].
      * by rewrite list_lookup_insert_eq.
      * rewrite list_insert_ge by lia. destruct (heap w !! nl) as [[|]|]; try done.
        by intros [= ->].
    + rewrite list_lookup_insert_ne by done.
      destruct (heap w !! a) as [[|]|]; try done. by intros [= ->].
  - by intros [= ->].
Qed.

Lemma elements_length w v xs :
  elements w v = Some xs → peek w v "length" = Some (VNum (Z.of_nat (length xs))).
Proof.
  destruct v as [| | | | | |a|ys|]; try done; simpl.
  - destruct (heap w !! a) as [[|]|]; try done. by intros [= ->].
  - by intros [= ->].
Qed.

Lemma even_height m : Z.even (m * 20 + 20) = true.
Proof. rewrite Z.even_add, Z.even_mul. simpl. by rewrite orb_true_r. Qed.

Section layout.
Context `{Collaborators}.

(** What [port_y] reads: the layout of the scope with its height, and the
    port array with its length. *)
Definition layout_facts (ns : value) (ports : string) (L : list (string * value))
    (h n : Z) (w : world) : Prop :=
  peek w ns "layout" = Some (VObj L)
  ∧ assoc_get "height" L = VNum h
  ∧ Z.even h = true
  ∧ ∃ arr, peek w ns ports = Some arr ∧ peek w arr "length" = Some (VNum n).

Lemma layout_facts_heap ns ports L h n w w' :
  heap w' = heap w → layout_facts ns ports L h n w → layout_facts ns ports L h n w'.
Proof.
  intros Hh (H1 & H2 & H3 & arr & H4 & H5). unfold layout_facts.
  rewrite (peek_heap w' w) by done. repeat split; try done.
  exists arr. by rewrite !(peek_heap w' w).
Qed.

Lemma port_y_eval ns ports i w L h n :
  layout_facts ns ports L h n w →
  port_y ns ports i w = Ok (VNum (h / 2 - n * 10 + 20 * Z.of_nat i + 10)) w.
Proof.
  intros (H1 & H2 & H3 & arr & H4 & H5).
  unfold port_y, bind, getp. rewrite H1. simpl. rewrite H2. simpl. rewrite H3. simpl.
  rewrite H4, H5. reflexivity.
Qed.

(** The copy of a port: its own properties, with the layout properties put
    in. *)
Definition port_copy (x y gid : value) (props : list (string * value)) : value :=
  VObj (assoc_set "layoutProperties" (VObj [("x", x); ("y", y); ("id", gid)]) props).

Lemma mapIndex_input_layout ns L h n xs : ∀ i w ys w',
  layout_facts ns "Input" L h n w →
  mapIndex i xs (input_layout ns) w = Ok ys w' →
  heap w' = heap w
  ∧ length ys = length xs
  ∧ ∀ j y, ys !! j = Some y →
      ∃ x props gid,
        xs !! j = Some x ∧ spread w x = Some props
        ∧ y = port_copy (VNum 0) (VNum (h / 2 - n * 10 + 20 * Z.of_nat (i + j) + 10)) gid props.
Proof.
  induction xs as [|x rest IH]; intros i w ys w' Hfacts; simpl.
  - intros [= <- <-]. split; [done|]. split; [done|]. intros j y Hj. by rewrite lookup_nil in Hj.
  - intros (y0 & w1 & Hone & Hrun)%bind_Ok.
    apply bind_Ok in Hrun as (ys' & w2 & Hrest & [= <- <-]).
    unfold input_layout in Hone.
    apply bind_Ok in Hone as (props & ? & Hprops & Hone).
    pose proof (reads_spread_props _ _ _ _ Hprops) as ->.
    unfold spread_props in Hprops. destruct (spread w x) as [props'|] eqn:Hspread; [|done].
    injection Hprops as ->.
    apply bind_Ok in Hone as (y & ? & Hy & Hone).
    rewrite (port_y_eval _ _ _ _ _ _ _ Hfacts) in Hy. injection Hy as <- <-.
    apply bind_Ok in Hone as (gid & w1' & Hgid & [= <- <-]).
    injection Hgid as <- <-.
    match type of Hrest with
    | mapIndex _ _ _ ?w1 = _ =>
        destruct (IH (S i) w1 ys' w2) as (Hh & Hlen & Hall);
          [by apply (layout_facts_heap _ _ _ _ _ w)|exact Hrest|]
    end.
    split; [by rewrite Hh|]. split; [simpl; by rewrite Hlen|].
    intros [|j] y Hj; simpl in Hj.
    + injection Hj as <-. exists x, props, (generateId (ids w)).
      rewrite Nat.add_0_r. by split.
    + destruct (Hall j y Hj) as (x' & props' & gid & Hx & Hsp & ->).
      exists x', props', gid. split; [done|]. split.
      * unfold spread in *. simpl in Hsp. exact Hsp.
      * by replace (i + S j) with (S i + j) by lia.
Qed.

Lemma mapIndex_output_layout ns L h n xs : ∀ i w ys w',
  layout_facts ns "Output" L h n w →
  mapIndex i xs (output_layout ns) w = Ok ys w' →
  heap w' = heap w
  ∧ length ys = length xs
  ∧ ∀ j y, ys !! j = Some y →
      ∃ x props gid,
        xs !! j = Some x ∧ spread w x = Some props
        ∧ y = port_copy (assoc_get "width" L)
                (VNum (h / 2 - n * 10 + 20 * Z.of_nat (i + j) + 10)) gid props.
Proof.
  induction xs as [|x rest IH]; intros i w ys w' Hfacts; simpl.
  - intros [= <- <-]. split; [done|]. split; [done|]. intros j y Hj. by rewrite lookup_nil in Hj.
  - intros (y0 & w1 & Hone & Hrun)%bind_Ok.
    apply bind_Ok in Hrun as (ys' & w2 & Hrest & [= <- <-]).
    unfold output_layout in Hone.
    apply bind_Ok in Hone as (props & ? & Hprops & Hone).
    pose proof (reads_spread_props _ _ _ _ Hprops) as ->.
    unfold spread_props in Hprops. destruct (spread w x) as [props'|] eqn:Hspread; [|done].
    injection Hprops as ->.
    pose proof Hfacts as (HL & _).
    apply bind_Ok in Hone as (layout & ? & [-> Hlay]%getp_Ok & Hone).
    rewrite HL in Hlay. injection Hlay as <-.
    apply bind_Ok in Hone as (width & ? & [-> ->]%getp_doc & Hone).
    apply bind_Ok in Hone as (y & ? & Hy & Hone).
    rewrite (port_y_eval _ _ _ _ _ _ _ Hfacts) in Hy. injection Hy as <- <-.
    apply bind_Ok in Hone as (gid & w1' & Hgid & [= <- <-]).
    injection Hgid as <- <-.
    match type of Hrest with
    | mapIndex _ _ _ ?w1 = _ =>
        destruct (IH (S i) w1 ys' w2) as (Hh & Hlen & Hall);
          [by apply (layout_facts_heap _ _ _ _ _ w)|exact Hrest|]
    end.
    split; [by rewrite Hh|]. split; [simpl; by rewrite Hlen|].
    intros [|j] y Hj; simpl in Hj.
    + injection Hj as <-. exists x, props, (generateId (ids w)).
      rewrite Nat.add_0_r. by split.
    + destruct (Hall j y Hj) as (x' & props' & gid & Hx & Hsp & ->).
      exists x', props', gid. split; [done|]. split.
      * unfold spread in *. simpl in Hsp. exact Hsp.
      * by replace (i + S j) with (S i + j) by lia.
Qed.

(** [m] leaves the heap as it is. *)
Definition heap_stable {A} (m : M A) : Prop := ∀ w a w', m w = Ok a w' → heap w' = heap w.

Lemma heap_stable_reads {A} (m : M A) : reads m → heap_stable m.
Proof. intros Hr w a w' Hrun. by apply Hr in Hrun as ->. Qed.

Lemma heap_stable_bind {A B} (m : M A) (k : A → M B) :
  heap_stable m → (∀ a, heap_stable (k a)) → heap_stable (bind m k).
Proof.
  intros Hm Hk w b w' (a & w1 & H1 & H2)%bind_Ok.
  apply Hm in H1. apply Hk in H2. congruence.
Qed.

Lemma heap_stable_fresh_id : heap_stable fresh_id.
Proof. by intros w a w' [= _ <-]. Qed.

Lemma heap_stable_mapIndex (f : value → nat → M value) xs :
  (∀ x i, heap_stable (f x i)) → ∀ i, heap_stable (mapIndex i xs f).
Proof.
  intros Hf. induction xs as [|x rest IH]; intros i; simpl.
  - apply heap_stable_reads, reads_ret.
  - apply heap_stable_bind; [apply Hf|intros y].
    apply heap_stable_bind; [apply IH|intros ys]. apply heap_stable_reads, reads_ret.
Qed.

Lemma heap_stable_port_y ns ports i : heap_stable (port_y ns ports i).
Proof.
  apply heap_stable_reads. unfold port_y.
  repeat (apply reads_bind; [auto with reads|intros ?]). auto with reads.
Qed.

Lemma heap_stable_input_layout ns x i : heap_stable (input_layout ns x i).
Proof.
  unfold input_layout.
  apply heap_stable_bind; [apply heap_stable_reads; auto with reads|intros ?].
  apply heap_stable_bind; [apply heap_stable_port_y|intros ?].
  apply heap_stable_bind; [apply heap_stable_fresh_id|intros ?].
  apply heap_stable_reads, reads_ret.
Qed.

(** The formulas of the backward-compatibility layout. *)
Definition synthesized_height (inputs outputs : nat) : Z :=
  Z.max (Z.of_nat inputs) (Z.of_nat outputs) * 20 + 20.

Definition synthesized_layout (inputs outputs : nat) : list (string * value) :=
  [("width", VNum 100); ("height", VNum (synthesized_height inputs outputs));
   ("title_x", VNum 50); ("title_y", VNum 13)].

Definition port_coordinate (height : Z) (count i : nat) : Z :=
  height / 2 - Z.of_nat count * 10 + 20 * Z.of_nat i + 10.

(** Lines 155-180, from a run that ended normally. *)
Lemma synthesize_layout_post ns w w' :
  synthesize_layout ns w = Ok tt w' →
  ∃ nl ins outs,
    ns = VRef nl
    ∧ slot w' nl "layout" = VObj (synthesized_layout (length ins) (length outs))
    ∧ slot w' nl "Input" = VArr ins
    ∧ slot w' nl "Output" = VArr outs
    ∧ (∀ i p, ins !! i = Some p →
         ∃ gid props,
           p = port_copy (VNum 0)
                 (VNum (port_coordinate (synthesized_height (length ins) (length outs))
                          (length ins) i)) gid props)
    ∧ (∀ i p, outs !! i = Some p →
         ∃ gid props,
           p = port_copy (VNum 100)
                 (VNum (port_coordinate (synthesized_height (length ins) (length outs))
                          (length outs) i)) gid props)
    ∧ (∃ fields, heap w' !! nl = Some (CObj fields))
    ∧ ∀ k, k ≠ "layout" → k ≠ "Input" → k ≠ "Output" → slot w' nl k = slot w nl k.
Proof.
  unfold synthesize_layout.
  intros (inV & ? & [-> Hin]%getp_Ok & Hrun)%bind_Ok.
  apply bind_Ok in Hrun as (nin & ? & [-> Hnin]%getp_Ok & Hrun).
  apply bind_Ok in Hrun as (outV & ? & [-> Hout]%getp_Ok & Hrun).
  apply bind_Ok in Hrun as (nout & ? & [-> Hnout]%getp_Ok & Hrun).
  apply bind_Ok in Hrun as (most & ? & Hmost & Hrun).
  pose proof (reads_math_max _ _ _ _ _ Hmost) as ->.
  apply bind_Ok in Hrun as (m20 & ? & Hm20 & Hrun).
  pose proof (reads_arith _ _ _ _ _ _ Hm20) as ->.
  apply bind_Ok in Hrun as (height & ? & Hheight & Hrun).
  pose proof (reads_arith _ _ _ _ _ _ Hheight) as ->.
  apply bind_Ok in Hrun as ([] & w1 & Hset & Hrun).
  apply setp_Ok in Hset as (nl & fields & -> & Hcell & Hw1).
  pose proof (lookup_lt_Some _ _ _ Hcell) as Hlt.
  simpl in Hin, Hout. rewrite Hcell in Hin, Hout.
  injection Hin as <-. injection Hout as <-.
  set (NL := VObj [("width", VNum 100); ("height", height);
                   ("title_x", VNum 50); ("title_y", VNum 13)]) in *.
  assert (heap w1 !! nl = Some (CObj (assoc_set "layout" NL fields))) as Hcell1.
  { rewrite Hw1. unfold set_cell. simpl. by rewrite list_lookup_insert_eq. }
  apply bind_Ok in Hrun as (inV' & ? & [-> Hin']%getp_Ok & Hrun).
  simpl in Hin'. rewrite Hcell1 in Hin'. rewrite assoc_get_set_ne in Hin' by done.
  injection Hin' as <-.
  apply bind_Ok in Hrun as (inputLayouts & w2 & Hmap1 & Hrun).
  apply array_map_Ok in Hmap1 as (xs & ys & Hxs & Hmap1 & ->).
  pose proof (heap_stable_mapIndex _ xs (heap_stable_input_layout (VRef nl)) 0 _ _ _ Hmap1)
    as Hheap2.
  apply bind_Ok in Hrun as (outV' & ? & [-> Hout']%getp_Ok & Hrun).
  rewrite (peek_heap _ w1) in Hout' by done.
  simpl in Hout'. rewrite Hcell1 in Hout'. rewrite assoc_get_set_ne in Hout' by done.
  injection Hout' as <-.
  apply bind_Ok in Hrun as (outputLayouts & w3 & Hmap2 & Hrun).
  apply array_map_Ok in Hmap2 as (os & zs & Hos & Hmap2 & ->).
  rewrite (elements_heap _ w1) in Hos by done.
  pose proof (elements_length _ _ _ Hxs) as Hlenx1.
  pose proof (elements_length _ _ _ Hos) as Hleno1.
  rewrite Hw1 in Hxs, Hos.
  apply elements_after_setp in Hxs as (Hxs & Hlenx).
  apply elements_after_setp in Hos as (Hos & Hleno).
  rewrite Hlenx in Hnin. injection Hnin as <-.
  rewrite Hleno in Hnout. injection Hnout as <-.
  injection Hmost as <-. injection Hm20 as <-. injection Hheight as <-.
  fold (synthesized_height (length xs) (length os)) in *.
  set (h := synthesized_height (length xs) (length os)) in *.
  assert (∀ ports arr n, assoc_get ports fields = arr → ports ≠ "layout" →
            peek w1 arr "length" = Some (VNum n) →
            layout_facts (VRef nl) ports
              [("width", VNum 100); ("height", VNum h); ("title_x", VNum 50);
               ("title_y", VNum 13)] h n w1) as Hfacts.
  { intros ports arr n Harr Hne Hlen. unfold layout_facts.
    simpl. rewrite Hcell1. rewrite assoc_get_set_eq.
    split; [done|]. split; [done|]. split; [apply even_height|].
    exists arr. rewrite assoc_get_set_ne by done. by rewrite Harr. }
  destruct (mapIndex_input_layout _ _ _ _ _ _ _ _ _
              (Hfacts "Input" _ _ eq_refl ltac:(done) Hlenx1) Hmap1) as (_ & Hlen1 & Hins).
  destruct (mapIndex_output_layout _ _ _ _ _ _ _ _ _
              (layout_facts_heap _ _ _ _ _ _ _ Hheap2
                 (Hfacts "Output" _ _ eq_refl ltac:(done) Hleno1)) Hmap2)
    as (Hheap3 & Hlen2 & Houts).
  apply bind_Ok in Hrun as ([] & w4 & Hset1 & Hset2).
  pose proof (setp_leaves_object _ _ _ _ _ Hset2) as Hobj.
  apply slot_after_setp in Hset1 as (_ & Hi4 & Hne4).
  apply slot_after_setp in Hset2 as (_ & Ho5 & Hne5).
  assert (∀ k, slot w3 nl k = slot w1 nl k) as Hslot3.
  { intros k. unfold slot. by rewrite Hheap3, Hheap2. }
  assert (∀ k, slot w1 nl k = assoc_get k (assoc_set "layout" NL fields)) as Hslot1.
  { intros k. unfold slot. by rewrite Hcell1. }
  exists nl, ys, zs. rewrite Hlen1, Hlen2.
  split; [done|]. split.
  { rewrite Hne5, Hne4, Hslot3, Hslot1 by done. by rewrite assoc_get_set_eq. }
  split; [by rewrite Hne5|]. split; [done|]. split.
  { intros i p Hp. destruct (Hins i p Hp) as (x & props & gid & _ & _ & ->).
    by exists gid, props. }
  split.
  { intros i p Hp. destruct (Houts i p Hp) as (x & props & gid & _ & _ & ->).
    by exists gid, props. }
  split; [done|].
  intros k Hk1 Hk2 Hk3. rewrite Hne5, Hne4, Hslot3, Hslot1 by done.
  rewrite assoc_get_set_ne by done. unfold slot. by rewrite Hcell.
Qed.

Lemma loadScope_steps fuel scope data w ns w' :
  loadScope fuel scope data w = Ok ns w' →
  ∃ w1 w2 w3 w4,
    copy_scope scope data w = Ok ns w1
    ∧ load_elements fuel ns data w1 = Ok tt w2
    ∧ restore_metadata ns data w2 = Ok tt w3
    ∧ resolve_layout ns data w3 = Ok tt w4
    ∧ default_titleEnabled ns w4 = Ok tt w'.
Proof.
  unfold loadScope.
  intros (ns' & w1 & Hcopy & Hrun)%bind_Ok.
  apply bind_Ok in Hrun as ([] & w2 & H2 & Hrun).
  apply bind_Ok in Hrun as ([] & w3 & H3 & Hrun).
  apply bind_Ok in Hrun as ([] & w4 & H4 & Hrun).
  apply bind_Ok in Hrun as ([] & w5 & H5 & [= <- <-]).
  eauto 10.
Qed.





End layout.

(** A document saved before layouts were stored, with one input and one
    output. *)
Definition port_record (tag : string) : value :=
  VObj [("objectType", VStr tag); ("x", VNum 0); ("y", VNum 0); ("customData", VObj [])].

Definition legacy_document : list (string * value) :=
  [("id", VStr "c1"); ("name", VStr "Main"); ("allNodes", VArr []);
   ("Input", VArr [port_record "Input"]); ("Output", VArr [port_record "Output"])].

(** The same circuit saved with a layout of its own and the title hidden. *)
Definition hidden_title_layout : list (string * value) :=
  [("width", VNum 200); ("height", VNum 60); ("title_x", VNum 100); ("title_y", VNum 13);
   ("titleEnabled", VBool false)].

Definition current_document : list (string * value) :=
  legacy_document ++ [("layout", VObj hidden_title_layout)].


Definition current_loaded : world :=
  Eval vm_compute in
    match loadScope 10 fresh_scope (VObj current_document) fresh_world with
    | Ok _ w' => w'
    | _ => fresh_world
    end.


Lemma current_run :
  loadScope 10 fresh_scope (VObj current_document) fresh_world = Ok (VRef 7) current_loaded.
Proof. vm_compute. reflexivity. Qed.



(** ** The cleanup pass (C3) *)

(** The condition of line 89, read off a world; [None] where reading it
    throws. *)
Definition bug_check (w : world) (node : value) : option bool :=
  type ← peek w node "type";
  if negb (is_num type 2) then
    parent ← peek w node "parent";
    objectType ← peek w parent "objectType";
    Some (is_str objectType "CircuitElement")
  else Some false.

Definition bug_node (w : world) (node : value) : bool :=
  default false (bug_check w node).

(** The loop of lines 88-94 on the list of nodes alone: [bug] tells the
    offending nodes, a node is deleted by taking it out of the list. *)
Definition without (n : nat) (xs : list nat) : list nat := filter (λ x, x ≠ n) xs.

Fixpoint sweep (bug : nat → bool) (fuel i : nat) (xs : list nat) : option (list nat) :=
  match fuel with
  | O => None
  | S fuel' =>
      match xs !! i with
      | None => Some xs
      | Some n =>
          let xs' := if bug n then without n xs else xs in
          if length xs' =? length xs then sweep bug fuel' (S i) xs
          else sweep bug fuel' 1 xs'
      end
  end.

Lemma without_length n xs : length (without n xs) ≤ length xs.
Proof. apply length_filter. Qed.

Lemma without_shorter n xs : n ∈ xs → length (without n xs) < length xs.
Proof.
  unfold without. induction xs as [|x rest IH]; [by intros ?%elem_of_nil|].
  intros Hin. rewrite filter_cons. pose proof (length_filter (λ x, x ≠ n) rest).
  destruct (decide (x ≠ n)) as [Hne|Heq]; simpl.
  - apply elem_of_cons in Hin as [->|Hin]; [done|]. specialize (IH Hin). lia.
  - lia.
Qed.

(** The pass ends: [length xs - i + length xs * length xs] steps are enough. *)
Lemma sweep_terminates bug : ∀ fuel i xs,
  length xs - i + length xs * length xs < fuel → is_Some (sweep bug fuel i xs).
Proof.
  induction fuel as [|fuel IH]; intros i xs Hfuel; [lia|]. simpl.
  destruct (xs !! i) as [n|] eqn:Hi; [|by eexists].
  pose proof (lookup_lt_Some _ _ _ Hi) as Hlt.
  destruct (bug n).
  - pose proof (without_shorter n xs) as Hshort.
    assert (n ∈ xs) as Hin by (apply list_elem_of_lookup; eauto).
    specialize (Hshort Hin).
    destruct (length (without n xs) =? length xs) eqn:E;
      [apply Nat.eqb_eq in E; lia|].
    apply IH. nia.
  - rewrite Nat.eqb_refl. apply IH. lia.
Qed.

(** What the pass guarantees: from index 1 on, no offending node is left.
    (Index 0 is tested once, before the first deletion.) *)
Lemma sweep_clean_from_1 bug : ∀ fuel i xs r,
  sweep bug fuel i xs = Some r →
  (∀ j n, 1 ≤ j < i → xs !! j = Some n → bug n = false) →
  ∀ j n, 1 ≤ j → r !! j = Some n → bug n = false.
Proof.
  induction fuel as [|fuel IH]; intros i xs r; [done|]. simpl.
  destruct (xs !! i) as [n|] eqn:Hi.
  - destruct (bug n) eqn:Hbug.
    + destruct (length (without n xs) =? length xs) eqn:E.
      * apply Nat.eqb_eq in E.
        assert (n ∈ xs) as Hin by (apply list_elem_of_lookup; eauto).
        pose proof (without_shorter n xs Hin). lia.
      * intros Hrun _. apply (IH _ _ _ Hrun). intros j m Hj. lia.
    + rewrite Nat.eqb_refl. intros Hrun Hinv. apply (IH _ _ _ Hrun).
      intros j m Hj Hm. destruct (decide (j = i)) as [->|Hne].
      * rewrite Hi in Hm. by injection Hm as <-.
      * apply (Hinv j m); [lia|done].
  - intros [= <-] Hinv j n Hj Hn. apply (Hinv j n); [|done].
    apply lookup_ge_None in Hi. apply lookup_lt_Some in Hn. lia.
Qed.

Lemma filter_same_ref n xs :
  filter (λ x, same_ref x (VRef n) = false) (VRef <$> xs) = VRef <$> without n xs.
Proof.
  unfold without. induction xs as [|x rest IH]; [done|].
  rewrite fmap_cons, !filter_cons, IH. simpl.
  destruct (decide (x ≠ n)) as [Hne|Heq].
  - apply Nat.eqb_neq in Hne. rewrite Hne. by destruct (decide (false = false)).
  - assert (x = n) as -> by (destruct (decide (x = n)); [done|by destruct Heq]).
    rewrite Nat.eqb_refl. by destruct (decide (true = false)).
Qed.

Lemma peek_set_array w al ys zs v k :
  heap w !! al = Some (CArr ys) → k ≠ "length" →
  peek (set_cell al (CArr zs) w) v k = peek w v k.
Proof.
  intros Hcell Hk. apply String.eqb_neq in Hk.
  destruct v as [| | | | | |l| |]; try done. simpl.
  destruct (decide (l = al)) as [->|Hne].
  - rewrite list_lookup_insert_eq by (by eapply lookup_lt_Some).
    by rewrite Hcell, Hk.
  - by rewrite list_lookup_insert_ne.
Qed.

Section cleanup.
Context `{Collaborators}.
Variables (sl al : nat) (w0 : world) (xs0 : list nat) (bug : nat → bool).

(** The scope at [sl] keeps its nodes, the objects at [xs], in the array at
    [al]; apart from that array the world is as [w0] was. *)
Record node_list (xs : list nat) (w : world) : Prop := {
  nl_scope : ∃ fields, heap w !! sl = Some (CObj fields)
                       ∧ assoc_get "allNodes" fields = VRef al;
  nl_array : heap w !! al = Some (CArr (VRef <$> xs));
  nl_subset : xs ⊆ xs0;
  nl_same : ∀ v k, k ≠ "length" → peek w v k = peek w0 v k
}.

(** The condition of line 89 can be read for every node, and deleting a
    node takes it out of the scope's node list. *)
Hypothesis bug_readable : ∀ n, n ∈ xs0 → bug_check w0 (VRef n) = Some (bug n).
Hypothesis delete_removes : ∀ n xs w,
  n ∈ xs0 → node_list xs w → node_delete (VRef n) w = delete_from (VRef sl) (VRef n) w.

Lemma delete_from_node_list n xs w :
  node_list xs w →
  ∃ w', delete_from (VRef sl) (VRef n) w = Ok tt w' ∧ node_list (without n xs) w'.
Proof.
  intros [(fields & Hsc & Hall) Harr Hsub Hsame].
  exists (set_cell al (CArr (VRef <$> without n xs)) w). split.
  - unfold delete_from, bind, getp. simpl. rewrite Hsc, Hall, Harr.
    by rewrite filter_same_ref.
  - pose proof (lookup_lt_Some _ _ _ Harr) as Hlt.
    assert (sl ≠ al) as Hne by (intros ->; congruence).
    split.
    + exists fields. simpl. by rewrite list_lookup_insert_ne.
    + simpl. by rewrite list_lookup_insert_eq.
    + intros x Hx. apply Hsub. unfold without in Hx.
      by apply list_elem_of_filter in Hx as [_ ?].
    + intros v k Hk. rewrite (peek_set_array _ _ _ _ _ _ Harr Hk). by apply Hsame.
Qed.

Lemma bug_check_same w xs n :
  node_list xs w → n ∈ xs → bug_check w (VRef n) = Some (bug n).
Proof.
  intros Hnl Hn. rewrite <- (bug_readable n) by (by apply (nl_subset _ _ Hnl)).
  unfold bug_check.
  rewrite (nl_same _ _ Hnl (VRef n) "type") by discriminate.
  rewrite (nl_same _ _ Hnl (VRef n) "parent") by discriminate.
  destruct (peek w0 (VRef n) "type") as [type|]; [|reflexivity]. cbn -[peek].
  destruct (negb (is_num type 2)); [|reflexivity].
  destruct (peek w0 (VRef n) "parent") as [parent|]; [|reflexivity]. cbn -[peek].
  rewrite (nl_same _ _ Hnl parent "objectType") by discriminate. reflexivity.
Qed.

(** Line 89 on the node at [n], followed by [k]. *)
Lemma test_and_delete n xs w (k : M unit) :
  node_list xs w → n ∈ xs →
  ∃ w',
    node_list (if bug n then without n xs else xs) w'
    ∧ (let* type := getp (VRef n) "type" in
       let* bug :=
         if negb (is_num type 2) then
           let* parent := getp (VRef n) "parent" in
           let* objectType := getp parent "objectType" in
           ret (is_str objectType "CircuitElement")
         else ret false in
       let* _ := if bug then node_delete (VRef n) else ret tt in
       k) w = k w'.
Proof.
  intros Hnl Hn. pose proof (bug_check_same _ _ _ Hnl Hn) as Hcheck.
  unfold bug_check in Hcheck. unfold bind at 1. unfold getp at 1.
  destruct (peek w (VRef n) "type") as [type|]; [|done]. cbn -[peek] in Hcheck.
  assert (∃ w', node_list (if bug n then without n xs else xs) w'
                ∧ (let* _ := if bug n then node_delete (VRef n) else ret tt in k) w = k w')
    as Hfin.
  { unfold bind. destruct (bug n).
    - rewrite (delete_removes n xs w) by (done || by apply (nl_subset _ _ Hnl)).
      destruct (delete_from_node_list n xs w Hnl) as (w' & -> & Hnl'). eauto.
    - by exists w. }
  unfold bind at 1. destruct (negb (is_num type 2)).
  - unfold bind at 1. unfold getp at 1.
    destruct (peek w (VRef n) "parent") as [parent|]; [|done]. cbn -[peek] in Hcheck.
    unfold bind at 1. unfold getp at 1.
    destruct (peek w parent "objectType") as [objectType|]; [|done].
    cbn -[peek] in Hcheck. injection Hcheck as ->. exact Hfin.
  - injection Hcheck as Hb. rewrite <- Hb in *. exact Hfin.
Qed.

(** One turn of the loop of lines 88-94 at a node. *)
Lemma removeBugNodes_loop_step fuel i n xs w :
  node_list xs w → xs !! i = Some n →
  let xs' := if bug n then without n xs else xs in
  ∃ w1,
    node_list xs' w1
    ∧ removeBugNodes_loop (S fuel) (VRef sl) i (VNum (Z.of_nat (length xs))) w
      = if length xs' =? length xs
        then removeBugNodes_loop fuel (VRef sl) (S i) (VNum (Z.of_nat (length xs))) w1
        else removeBugNodes_loop fuel (VRef sl) 1 (VNum (Z.of_nat (length xs'))) w1.
Proof.
  intros Hnl Hi xs'. simpl.
  pose proof (lookup_lt_Some _ _ _ Hi) as Hlt.
  assert (n ∈ xs) as Hn by (apply list_elem_of_lookup; eauto).
  replace (Z.of_nat i <? Z.of_nat (length xs))%Z with true
    by (symmetry; apply Z.ltb_lt; lia).
  pose proof Hnl as [(fields & Hsc & Hall) Harr _ _].
  unfold bind at 1. unfold getp at 1. simpl. rewrite Hsc, Hall.
  unfold bind at 1. unfold geti. simpl. rewrite Harr.
  rewrite list_lookup_fmap, Hi. simpl.
  match goal with
  | |- context [bind (getp (VRef n) "type") ?f w] =>
      match f with
      | (λ type, bind _ (λ bug, bind _ (λ _, ?k))) =>
          destruct (test_and_delete n xs w k Hnl Hn) as (w1 & Hnl1 & Hstep)
      end
  end.
  exists w1. split; [exact Hnl1|]. rewrite Hstep. clear Hstep.
  pose proof Hnl1 as [(fields1 & Hsc1 & Hall1) Harr1 _ _].
  unfold bind at 1. unfold getp at 1. simpl. rewrite Hsc1, Hall1.
  unfold bind at 1. unfold getp at 1. simpl. rewrite Harr1. simpl.
  rewrite length_fmap. fold xs'.
  destruct (length xs' =? length xs) eqn:E.
  - apply Nat.eqb_eq in E. by rewrite E, Z.eqb_refl.
  - apply Nat.eqb_neq in E.
    by replace (Z.of_nat (length xs') =? Z.of_nat (length xs))%Z with false
      by (symmetry; apply Z.eqb_neq; lia).
Qed.

(** On such a world the loop is the sweep of the list. *)
Lemma removeBugNodes_loop_sweep : ∀ fuel i xs w,
  node_list xs w →
  match sweep bug fuel i xs with
  | Some r =>
      ∃ w', removeBugNodes_loop fuel (VRef sl) i (VNum (Z.of_nat (length xs))) w = Ok tt w'
            ∧ node_list r w'
  | None =>
      removeBugNodes_loop fuel (VRef sl) i (VNum (Z.of_nat (length xs))) w = OutOfFuel
  end.
Proof.
  induction fuel as [|fuel IH]; intros i xs w Hnl; [done|].
  cbn [sweep].
  destruct (xs !! i) as [n|] eqn:Hi.
  - destruct (removeBugNodes_loop_step fuel i n xs w Hnl Hi) as (w1 & Hnl1 & ->).
    assert (n ∈ xs) as Hn by (apply list_elem_of_lookup; eauto).
    cbv zeta.
    destruct (length (if bug n then without n xs else xs) =? length xs) eqn:E.
    + assert ((if bug n then without n xs else xs) = xs) as Hsame.
      { apply Nat.eqb_eq in E. destruct (bug n); [|done].
        pose proof (without_shorter n xs Hn). lia. }
      rewrite Hsame in Hnl1. by apply IH.
    + by apply IH.
  - apply lookup_ge_None in Hi. simpl.
    replace (Z.of_nat i <? Z.of_nat (length xs))%Z with false
      by (symmetry; apply Z.ltb_ge; lia).
    by exists w.
Qed.

(** What the cleanup does achieve.  Given enough fuel the pass returns, the
    node list it leaves is part of the one it found, and from index 1 on it
    holds no offending node. *)
Lemma removeBugNodes_clean_from_1 fuel w :
  node_list xs0 w →
  length xs0 + length xs0 * length xs0 < fuel →
  ∃ r w',
    removeBugNodes fuel (VRef sl) w = Ok tt w'
    ∧ node_list r w'
    ∧ ∀ j n, 1 ≤ j → r !! j = Some n → bug_node w' (VRef n) = false.
Proof.
  intros Hnl Hfuel.
  destruct (sweep_terminates bug fuel 0 xs0) as (r & Hsweep); [lia|].
  pose proof (removeBugNodes_loop_sweep fuel 0 xs0 w Hnl) as Hloop.
  rewrite Hsweep in Hloop. destruct Hloop as (w' & Hrun & Hnl').
  exists r, w'. split; [|split; [done|]].
  - pose proof Hnl as [(fields & Hsc & Hall) Harr _ _].
    unfold removeBugNodes. simpl.
    unfold bind at 1. unfold ret at 1.
    unfold bind at 1. unfold getp at 1. simpl. rewrite Hsc, Hall.
    unfold bind at 1. unfold getp at 1. simpl. rewrite Harr. simpl.
    by rewrite length_fmap.
  - intros j n Hj Hn. unfold bug_node.
    rewrite (bug_check_same w' r n Hnl') by (apply list_elem_of_lookup; eauto).
    simpl. eapply (sweep_clean_from_1 bug fuel 0 xs0 r Hsweep); [|exact Hj|exact Hn].
    intros j' m Hj'. lia.
Qed.

End cleanup.

(** The sample circuit after [loadNode] has loaded two nodes of type 0 and 1
    (cells 7 and 8); both hang off the root element. *)
Definition two_stray_nodes : world :=
  match (let* _ := loadNode (VObj [("type", VNum 0)]) fresh_scope in
         loadNode (VObj [("type", VNum 1)]) fresh_scope) fresh_world with
  | Ok _ w => w
  | _ => fresh_world
  end.

(** C3 (what the code does).  With two offending nodes in the list the pass
    deletes the first, notices the changed count, sets [i = 0], and the
    loop header increments [i] to 1 before the next test: the node that
    moved to index 0 is never looked at, and the pass returns with an
    offending node still in the list. *)
Theorem cleanup_misses_shifted_node :
  ∃ w', removeBugNodes 10 fresh_scope two_stray_nodes = Ok tt w'
    ∧ elements two_stray_nodes (VRef 0) = Some [VRef 7; VRef 8]
    ∧ bug_node two_stray_nodes (VRef 7) = true
    ∧ bug_node two_stray_nodes (VRef 8) = true
    ∧ elements w' (VRef 0) = Some [VRef 8]
    ∧ bug_node w' (VRef 8) = true.
Proof. eexists. repeat split; by vm_compute. Qed.

(** The same run through the general statement: everything from index 1 on
    is clean, which for these two nodes says nothing about the survivor. *)
Example cleanup_in_simulator :
  ∃ r w',
    removeBugNodes 10 fresh_scope two_stray_nodes = Ok tt w'
    ∧ node_list 6 0 two_stray_nodes [7; 8] r w'
    ∧ ∀ j n, 1 ≤ j → r !! j = Some n → bug_node w' (VRef n) = false.
Proof.
  apply (removeBugNodes_clean_from_1 6 0 two_stray_nodes [7; 8] (λ _, true)).
  - intros n Hn. apply list_elem_of_In in Hn. simpl in Hn.
    destruct Hn as [<-|[<-|[]]]; by vm_compute.
  - intros n xs w Hn Hnl. simpl. unfold delete_node, bind, getp.
    rewrite (nl_same _ _ _ _ _ _ Hnl (VRef n) "parent") by discriminate.
    apply list_elem_of_In in Hn. simpl in Hn.
    destruct Hn as [<-|[<-|[]]].
    + change (peek two_stray_nodes (VRef 7) "parent") with (Some (VRef 5)).
      cbv beta iota. unfold getp.
      rewrite (nl_same _ _ _ _ _ _ Hnl (VRef 5) "scope") by discriminate.
      reflexivity.
    + change (peek two_stray_nodes (VRef 8) "parent") with (Some (VRef 5)).
      cbv beta iota. unfold getp.
      rewrite (nl_same _ _ _ _ _ _ Hnl (VRef 5) "scope") by discriminate.
      reflexivity.
  - split.
    + eexists. split; by vm_compute.
    + by vm_compute.
    + done.
    + done.
  - simpl. lia.
Qed.

(** ** The scope object itself (C1) *)

(** The properties [loadScope] resolves. *)
Definition guarded (k : string) : Prop :=
  k ∈ ["layout"; "verilogMetadata"; "testbenchData"; "Input"; "Output"].

Lemma alloc_Ok c w v w' :
  alloc c w = Ok v w' → v = VRef (length (heap w)) ∧ heap w' = (heap w ++ [c])%list.
Proof. by intros [= <- <-]. Qed.

Section scope_object.
Context `{Collaborators}.

(** What is asked of the collaborators: they do not write a guarded
    property of an object, except possibly of the scope they are handed by
    [loadScope]; constructors and [newCircuit] return objects of their
    own. *)
Record well_behaved : Prop := {
  wb_quiet : ∀ l, quiet l guarded;
  wb_newCircuit : ∀ name sid isVerilog isMain,
    hoare (λ _, True) (newCircuit name sid isVerilog isMain)
          (λ scope w, ∃ l, scope = VRef l ∧ l < length (heap w));
  wb_centerFocus : ∀ l scope flag, keeps l guarded (centerFocus scope flag);
  wb_update : ∀ l scope flag, keeps l guarded (update scope flag);
  wb_restricted : ∀ l, keeps l guarded updateRestrictedElementsInScope;
  wb_backup : ∀ l, keeps l guarded scheduleBackup
}.

(** C1.  [loadScope(s, d)] returns a newly allocated object and leaves the
    properties [layout], [verilogMetadata], [testbenchData], [Input] and
    [Output] of [s] itself as they were; [load] drops that object, so at the
    end of the loop body the scope made by [newCircuit] still has these
    properties as [newCircuit] left them. *)
Theorem loadScope_result_is_discarded fuel :
  well_behaved →
  (∀ l data w ns w',
     l < length (heap w) →
     loadScope fuel (VRef l) data w = Ok ns w' →
     ns = VRef (length (heap w)) ∧ ns ≠ VRef l
     ∧ ∀ k, guarded k → slot w' l k = slot w l k)
  ∧ (∀ scopeDoc w w',
       load_scope_entry fuel scopeDoc w = Ok tt w' →
       ∃ l w1,
         create_scope scopeDoc w = Ok (VRef l) w1
         ∧ ∀ k, guarded k → slot w' l k = slot w1 l k).
Proof.
  intros Hwb. split.
  - intros l data w ns w' Hlt Hload.
    assert (ns = VRef (length (heap w))) as ->.
    { apply loadScope_steps in Hload as (w1 & _ & _ & _ & Hcopy & _).
      unfold copy_scope in Hcopy.
      apply bind_Ok in Hcopy as (props & ? & ->%reads_spread_props & Hcopy).
      apply bind_Ok in Hcopy as (r & ? & [-> _]%getp_Ok & Hcopy).
      by apply alloc_Ok in Hcopy as [-> _]. }
    split; [done|]. split; [intros [= Heq]; lia|].
    assert (holds l guarded (slot w l) w') as [_ Hkept]; [|exact Hkept].
    eapply (keeps_loadScope l guarded fuel (VRef l) data (wb_quiet Hwb l));
      [|exact Hload]. by split.
  - intros scopeDoc w w' Hrun. unfold load_scope_entry in Hrun.
    apply bind_Ok in Hrun as (scope & w1 & Hcreate & Hrun).
    assert (∃ l, scope = VRef l ∧ l < length (heap w1)) as (l & -> & Hlt).
    { unfold create_scope in Hcreate.
      apply bind_Ok in Hcreate as (vm & ? & ->%reads_getp & Hcreate).
      apply bind_Ok in Hcreate as (isV & wa & Ha & Hcreate).
      assert (wa = w) as ->.
      { destruct (truthy vm); [by apply reads_getp in Ha|by apply reads_ret in Ha]. }
      apply bind_Ok in Hcreate as (isM & wb & Hb & Hcreate).
      assert (wb = w) as ->.
      { destruct (truthy vm); [by apply reads_getp in Hb|by apply reads_ret in Hb]. }
      apply bind_Ok in Hcreate as (name & ? & ->%reads_getp & Hcreate).
      apply bind_Ok in Hcreate as (sid & ? & ->%reads_getp & Hcreate).
      by eapply (wb_newCircuit Hwb) in Hcreate. }
    exists l, w1. split; [done|].
    assert (holds l guarded (slot w1 l) w') as [_ Hkept]; [|exact Hkept].
    assert (keeps l guarded
              (let* _ := loadScope fuel (VRef l) scopeDoc in
               let* _ := set_globalScope (VRef l) in
               let* current := get_globalScope in
               let* _ := centerFocus current embed in
               let* current := get_globalScope in
               let* _ := update current true in
               let* _ := updateRestrictedElementsInScope in
               scheduleBackup)) as Hk.
    { apply keeps_bind; [apply keeps_loadScope, (wb_quiet Hwb)|intros ?].
      apply keeps_bind; [apply keeps_set_globalScope|intros ?].
      apply keeps_bind; [apply keeps_reads, reads_get_globalScope|intros ?].
      apply keeps_bind; [apply (wb_centerFocus Hwb)|intros ?].
      apply keeps_bind; [apply keeps_reads, reads_get_globalScope|intros ?].
      apply keeps_bind; [apply (wb_update Hwb)|intros ?].
      apply keeps_bind; [apply (wb_restricted Hwb)|intros ?].
      apply (wb_backup Hwb). }
    eapply Hk; [|exact Hrun]. by split.
Qed.

End scope_object.

(** The sample simulator is well behaved. *)

Lemma keeps_push l K arr x : keeps l K (push arr x).
Proof.
  intros σ w a w' [Hlen Hs]. unfold push.
  destruct arr as [| | | | | |l'| |]; try done.
  destruct (heap w !! l') as [[fields|items]|] eqn:Hcell; try done.
  intros [= _ <-]. split.
  - unfold set_cell. simpl. by rewrite length_insert.
  - intros k0 Hk0. rewrite <- (Hs k0 Hk0).
    destruct (decide (l = l')) as [<-|Hne]; [|by apply slot_set_cell_ne].
    unfold slot, set_cell. simpl. rewrite list_lookup_insert_eq by done.
    by rewrite Hcell.
Qed.

Lemma keeps_delete_from l K scope node : keeps l K (delete_from scope node).
Proof.
  unfold delete_from. apply keeps_bind; [apply keeps_reads, reads_getp|intros arr].
  intros σ w a w' [Hlen Hs].
  destruct arr as [| | | | | |l'| |]; try done.
  destruct (heap w !! l') as [[fields|items]|] eqn:Hcell; try done.
  intros [= _ <-]. split.
  - unfold set_cell. simpl. by rewrite length_insert.
  - intros k0 Hk0. rewrite <- (Hs k0 Hk0).
    destruct (decide (l = l')) as [<-|Hne]; [|by apply slot_set_cell_ne].
    unfold slot, set_cell. simpl. rewrite list_lookup_insert_eq by done.
    by rewrite Hcell.
Qed.

Lemma keeps_element l K tag delay x y scope args : keeps l K (element tag delay x y scope args).
Proof.
  unfold element.
  apply keeps_bind; [apply keeps_alloc|intros obj].
  apply keeps_bind; [apply keeps_reads, reads_getp|intros list].
  apply keeps_bind; [apply keeps_push|intros ?]. apply keeps_reads, reads_ret.
Qed.

Lemma element_is_new l tag delay x y scope args :
  hoare (λ w, l < length (heap w)) (element tag delay x y scope args) (λ obj _, obj ≠ VRef l).
Proof.
  intros w obj w' Hlt. unfold element.
  intros (obj' & w1 & [-> _]%alloc_Ok & Hrun)%bind_Ok.
  apply bind_Ok in Hrun as (list & ? & _ & Hrun).
  apply bind_Ok in Hrun as ([] & ? & _ & [= <- _]).
  intros [= Heq]. lia.
Qed.

Lemma registry_element tag ctor :
  registry tag = Some ctor → ∃ tag' delay, ctor = element tag' delay.
Proof.
  unfold registry. repeat case_match; intros [= <-]; eauto.
Qed.

Lemma simulator_quiet l K : ¬ K "direction" → quiet l K.
Proof.
  intros Hdir. split; simpl.
  - intros tag ctor x y sc args (tag' & delay & ->)%registry_element _. apply keeps_element.
  - intros tag ctor x y sc args (tag' & delay & ->)%registry_element. apply element_is_new.
  - intros obj _. unfold fix_element_direction.
    apply keeps_bind; [apply keeps_reads, reads_getp|intros d]. apply keeps_setp. by right.
  - intros a b. apply keeps_reads, reads_ret.
  - intros x sc _. unfold load_node.
    apply keeps_bind; [apply keeps_reads, reads_getp|intros ?].
    apply keeps_bind; [apply keeps_reads, reads_getp|intros ?].
    apply keeps_bind; [apply keeps_alloc|intros ?].
    apply keeps_bind; [apply keeps_reads, reads_getp|intros ?]. apply keeps_push.
  - intros a b. apply keeps_reads, reads_ret.
  - intros d sc _. apply keeps_reads, reads_ret.
  - intros x sc _. apply keeps_reads, reads_ret.
  - intros n. unfold delete_node.
    apply keeps_bind; [apply keeps_reads, reads_getp|intros ?].
    apply keeps_bind; [apply keeps_reads, reads_getp|intros ?]. apply keeps_delete_from.
Qed.

Lemma simulator_well_behaved : well_behaved.
Proof.
  split; simpl.
  - intros l. apply simulator_quiet. unfold guarded. rewrite !elem_of_cons, elem_of_nil.
    intros [?|[?|[?|[?|[?|[]]]]]]; discriminate.
  - intros name sid isV isM w scope w' _. unfold new_circuit.
    intros (a0 & ? & _ & Hrun)%bind_Ok.
    apply bind_Ok in Hrun as (a1 & ? & _ & Hrun).
    apply bind_Ok in Hrun as (a2 & ? & _ & Hrun).
    apply bind_Ok in Hrun as (a3 & ? & _ & Hrun).
    apply bind_Ok in Hrun as (a4 & ? & _ & Hrun).
    apply bind_Ok in Hrun as (root & w6 & _ & Hrun).
    apply bind_Ok in Hrun as (sc & w7 & [-> Hheap]%alloc_Ok & Hrun).
    apply bind_Ok in Hrun as ([] & w8 & Hset & [= <- <-]).
    exists (length (heap w6)). split; [done|].
    assert (holds (length (heap w6)) (λ _, False) (λ _, VUndef) w8) as [Hlt _]; [|done].
    eapply (keeps_setp _ _ root "scope"); [right; tauto| |exact Hset].
    split; [|done]. rewrite Hheap, length_app. simpl. lia.
  - intros l sc flag. apply keeps_reads, reads_ret.
  - intros l sc flag. apply keeps_reads, reads_ret.
  - intros l. apply keeps_reads, reads_ret.
  - intros l. apply keeps_reads, reads_ret.
Qed.

(** The world of the sample simulator after the body of [load]'s loop has
    run for the document with the hidden title. *)
Definition entry_loaded : world :=
  Eval vm_compute in
    match load_scope_entry 10 (VObj current_document) empty_world with
    | Ok _ w' => w'
    | _ => empty_world
    end.

Lemma entry_run :
  load_scope_entry 10 (VObj current_document) empty_world = Ok tt entry_loaded.
Proof. vm_compute. reflexivity. Qed.

Lemma loadScope_result_is_discarded_witness :
  create_scope (VObj current_document) empty_world = Ok fresh_scope fresh_world
  ∧ load_scope_entry 10 (VObj current_document) empty_world = Ok tt entry_loaded
  ∧ (∀ k, guarded k → slot entry_loaded 6 k = slot fresh_world 6 k)
  ∧ globalScope entry_loaded = fresh_scope
  ∧ slot entry_loaded 6 "layout" ≠ VObj hidden_title_layout
  ∧ slot entry_loaded 7 "layout" = VObj hidden_title_layout.
Proof.
  destruct (loadScope_result_is_discarded 10 simulator_well_behaved) as [_ Hentry].
  destruct (Hentry _ _ _ entry_run) as (l & w1 & Hcreate & Hkept).
  assert (create_scope (VObj current_document) empty_world = Ok fresh_scope fresh_world)
    as Hfresh by (vm_compute; reflexivity).
  rewrite Hfresh in Hcreate. injection Hcreate as <- <-.
  split; [exact Hfresh|]. split; [exact entry_run|]. split; [exact Hkept|].
  split; [reflexivity|]. split; [discriminate|reflexivity].
Defined.

End LoaderFacts.

(* ====================================================================== *)
(** * The folder panel: what a move does, and what the panel lists *)
(* ====================================================================== *)
Module FolderPanelLaws.
Import FolderPanel FolderPanelFacts.

(** How often [scheduleBackup] was called. *)
Definition backups (r : MoveResult) : nat := length (List.filter is_backup (trace r)).

(** ** renderFolderPanel (lines 691-765) *)

Lemma renderFolderPanel_entries env sc :
  entries (Some (renderFolderPanel env sc).1) = entries (Some sc).
Proof.
  unfold renderFolderPanel. destruct (folderPanelContainer env); simpl; [|done].
  by destruct (subcircuitMap sc).
Qed.

Lemma renderFolderPanel_folders env sc :
  default [] (folders (renderFolderPanel env sc).1) = default [] (folders sc).
Proof. unfold renderFolderPanel. by destruct (folderPanelContainer env). Qed.

Lemma renderFolderPanel_scope_id env sc :
  scope_id (renderFolderPanel env sc).1 = scope_id sc.
Proof. unfold renderFolderPanel. by destruct (folderPanelContainer env). Qed.

Lemma renderFolderPanel_no_backup env sc :
  List.filter is_backup (renderFolderPanel env sc).2 = [].
Proof. unfold renderFolderPanel. by destruct (folderPanelContainer env). Qed.

Lemma finish_move_parts env sc fid :
  finish_move env sc fid =
    mkMove (Some (renderFolderPanel env sc).1)
           ((renderFolderPanel env sc).2 ++
            [ScheduleBackup;
             ShowMessage ("Subcircuit moved to " ++
                          match fid with
                          | Some f => if truthy_str f then "folder" else "root"
                          | None => "root"
                          end ++ " successfully")%string])%list
           VUndef.
Proof. unfold finish_move. by destruct (renderFolderPanel env sc). Qed.

Lemma backups_finish_move env sc fid : backups (finish_move env sc fid) = 1.
Proof.
  unfold backups. rewrite finish_move_parts. simpl.
  by rewrite List.filter_app, renderFolderPanel_no_backup.
Qed.

(** ** moveSubcircuitToFolder (lines 543-614) *)

Lemma entries_with_map sc m : entries (Some (with_map sc m)) = m.
Proof. done. Qed.

Lemma with_map_entries sc m :
  subcircuitMap sc = Some m → with_map sc m = sc.
Proof. intros Hm. destruct sc. simpl in *. by subst. Qed.

(** X1.  Whatever the arguments, a call on a scope leaves the scope's id, its
    folders and the map entries of all other subcircuits as they were,
    schedules at most one backup and hands back [undefined]. *)
Theorem move_touches_one_entry env sid fid sc :
  let r := moveSubcircuitToFolder env sid fid (Some sc) in
  ∃ sc',
    scope_after r = Some sc'
    ∧ scope_id sc' = scope_id sc
    ∧ default [] (folders sc') = default [] (folders sc)
    ∧ (∀ s, s ≠ sid → entries (Some sc') !! s = entries (Some sc) !! s)
    ∧ backups r ≤ 1
    ∧ returned r = VUndef.
Proof.
  intros r. subst r. unfold moveSubcircuitToFolder.
  destruct (negb (truthy_str sid)).
  { exists sc. simpl. unfold backups. simpl. repeat split; done || lia. }
  unfold move_in_scope.
  set (m := default ∅ (subcircuitMap sc)).
  assert (∀ m' fid',
            (∀ s, s ≠ sid → m' !! s = m !! s) →
            let r := finish_move env (with_map (with_map sc m) m') fid' in
            ∃ sc', scope_after r = Some sc'
              ∧ scope_id sc' = scope_id sc
              ∧ default [] (folders sc') = default [] (folders sc)
              ∧ (∀ s, s ≠ sid → entries (Some sc') !! s = entries (Some sc) !! s)
              ∧ backups r ≤ 1 ∧ returned r = VUndef) as Hfin.
  { intros m' fid' Hm' r. subst r. rewrite backups_finish_move.
    rewrite finish_move_parts. cbn [scope_after returned]. eexists. split; [reflexivity|].
    rewrite renderFolderPanel_scope_id, renderFolderPanel_folders,
      renderFolderPanel_entries. simpl. repeat split; done || lia || auto. }
  assert (∀ evs, List.filter is_backup evs = [] →
            let r := mkMove (Some (with_map sc m)) evs VUndef in
            ∃ sc', scope_after r = Some sc'
              ∧ scope_id sc' = scope_id sc
              ∧ default [] (folders sc') = default [] (folders sc)
              ∧ (∀ s, s ≠ sid → entries (Some sc') !! s = entries (Some sc) !! s)
              ∧ backups r ≤ 1 ∧ returned r = VUndef) as Hstop.
  { intros evs Hevs r. subst r. exists (with_map sc m). unfold backups. simpl.
    rewrite Hevs. simpl. repeat split; done || lia. }
  destruct (scopeList env !! sid) as [n|]; [|by apply Hstop].
  destruct (same_folder _ _); [by apply Hstop|].
  destruct fid as [f|].
  - destruct (folderExists _ f) as [[|]|]; [|by apply Hstop..].
    apply Hfin. intros s Hs. by apply lookup_insert_ne.
  - apply Hfin. intros s Hs. by apply lookup_delete_ne.
Qed.

(** A move that the function carries out: the subcircuit is named and
    loaded, the destination is a folder of the scope, and it is not where
    the subcircuit already is (line 576: the mapped folder, or "root"). *)
Record movable (env : Env) (sid fid : string) (sc : Scope) : Prop := {
  mv_id : sid ≠ EmptyString;
  mv_loaded : is_Some (scopeList env !! sid);
  mv_folder : ∃ fs, folders sc = Some fs ∧ fid ∈ id <$> fs;
  mv_named : fid ≠ EmptyString;
  mv_elsewhere : currentFolder (entries (Some sc)) sid ≠ fid
}.

Lemma folderExists_true sc fs f :
  folders sc = Some fs → f ∈ id <$> fs → folderExists sc f = Some true.
Proof.
  intros Hfs (g & -> & Hg)%list_elem_of_fmap. unfold folderExists. rewrite Hfs.
  f_equal. apply existsb_exists. exists g. split; [by apply list_elem_of_In|].
  apply String.eqb_refl.
Qed.

Lemma movable_run env sid fid sc :
  movable env sid fid sc →
  moveSubcircuitToFolder env sid (Some fid) (Some sc) =
    finish_move env (with_map sc (<[sid := fid]> (entries (Some sc)))) (Some fid).
Proof.
  intros [Hid [n Hn] (fs & Hfs & Hin) Hfid Hcur].
  unfold moveSubcircuitToFolder, move_in_scope.
  apply truthy_str_true in Hid. rewrite Hid. simpl. rewrite Hn.
  simpl in Hcur. apply String.eqb_neq in Hcur. rewrite Hcur.
  rewrite (folderExists_true _ fs) by done. done.
Qed.

(** X2.  A move into a folder: the map gets the entry [sid ↦ fid] and is
    otherwise as before, the panel is rendered for the scope with the new
    map (or, without a panel container, an error is logged), then one
    backup is scheduled and the success message shown. *)
Theorem move_to_folder_records_entry env sid fid sc :
  movable env sid fid sc →
  let r := moveSubcircuitToFolder env sid (Some fid) (Some sc) in
  let moved := with_map sc (<[sid := fid]> (entries (Some sc))) in
  entries (scope_after r) = <[sid := fid]> (entries (Some sc))
  ∧ entries (scope_after r) !! sid = Some fid
  ∧ trace r = ((renderFolderPanel env moved).2
               ++ [ScheduleBackup; ShowMessage "Subcircuit moved to folder successfully"])%list
  ∧ backups r = 1.
Proof.
  intros Hmv r moved. subst r. rewrite (movable_run _ _ _ _ Hmv).
  rewrite backups_finish_move, finish_move_entries, finish_move_parts.
  pose proof (mv_named _ _ _ _ Hmv) as Hf. apply truthy_str_true in Hf.
  simpl. rewrite Hf. split; [done|]. split; [apply lookup_insert_eq|done].
Qed.

(** X3.  Asking for the same move again changes nothing: the second call
    returns at line 580 without rendering, scheduling or announcing. *)
Theorem second_move_is_noop env sid fid sc sc1 :
  movable env sid fid sc →
  scope_after (moveSubcircuitToFolder env sid (Some fid) (Some sc)) = Some sc1 →
  moveSubcircuitToFolder env sid (Some fid) (Some sc1) = mkMove (Some sc1) [] VUndef.
Proof.
  intros Hmv. rewrite (movable_run _ _ _ _ Hmv), finish_move_parts. simpl.
  intros [= <-].
  pose proof (mv_id _ _ _ _ Hmv) as Hid. apply truthy_str_true in Hid.
  pose proof (mv_named _ _ _ _ Hmv) as Hf. apply truthy_str_true in Hf.
  destruct (mv_loaded _ _ _ _ Hmv) as [n Hn].
  set (moved := with_map sc _).
  unfold moveSubcircuitToFolder, move_in_scope. rewrite Hid. simpl. rewrite Hn.
  assert (default ∅ (subcircuitMap (renderFolderPanel env moved).1)
          = <[sid := fid]> (entries (Some sc))) as Hm.
  { pose proof (renderFolderPanel_entries env moved) as H. simpl in H. exact H. }
  rewrite Hm. unfold currentFolder. rewrite lookup_insert_eq, Hf. simpl.
  rewrite String.eqb_refl. f_equal. f_equal.
  apply with_map_entries.
  unfold renderFolderPanel. destruct (folderPanelContainer env); reflexivity.
Qed.

Lemma root_run env sid sc :
  sid ≠ EmptyString → is_Some (scopeList env !! sid) →
  moveSubcircuitToFolder env sid None (Some sc) =
    finish_move env (with_map sc (delete sid (entries (Some sc)))) None.
Proof.
  intros Hid [n Hn]. apply truthy_str_true in Hid.
  unfold moveSubcircuitToFolder, move_in_scope. rewrite Hid. simpl. by rewrite Hn.
Qed.

(** X4.  A move to root always clears the subcircuit's entry, schedules one
    backup and announces the move, whether or not there was an entry. *)
Theorem move_to_root_clears_entry env sid sc :
  sid ≠ EmptyString → is_Some (scopeList env !! sid) →
  let r := moveSubcircuitToFolder env sid None (Some sc) in
  entries (scope_after r) = delete sid (entries (Some sc))
  ∧ trace r = ((renderFolderPanel env (with_map sc (delete sid (entries (Some sc))))).2
               ++ [ScheduleBackup; ShowMessage "Subcircuit moved to root successfully"])%list
  ∧ backups r = 1.
Proof.
  intros Hid Hn r. subst r. rewrite (root_run _ _ _ Hid Hn).
  by rewrite backups_finish_move, finish_move_entries, finish_move_parts.
Qed.

(** X5.  Moving a subcircuit that was in root into a folder and back to root
    restores the map. *)
Theorem move_and_back_restores_map env sid fid sc sc1 :
  movable env sid fid sc →
  entries (Some sc) !! sid = None →
  scope_after (moveSubcircuitToFolder env sid (Some fid) (Some sc)) = Some sc1 →
  entries (scope_after (moveSubcircuitToFolder env sid None (Some sc1)))
  = entries (Some sc).
Proof.
  intros Hmv Hnone.
  rewrite (movable_run _ _ _ _ Hmv), finish_move_parts. cbn [scope_after].
  intros [= <-].
  rewrite (root_run _ _ _ (mv_id _ _ _ _ Hmv) (mv_loaded _ _ _ _ Hmv)).
  rewrite finish_move_entries, entries_with_map, renderFolderPanel_entries.
  rewrite entries_with_map. by apply delete_insert_id.
Qed.

(** ** createFolderStructure (lines 41-297): what is listed where *)

Lemma NoDup_omap_keys {A} (f : string * A → option string) (l : list (string * A)) :
  (∀ kv y, f kv = Some y → y = kv.1) → NoDup l.*1 → NoDup (omap f l).
Proof.
  intros Hf. induction l as [|kv rest IH]; simpl; [constructor|].
  intros [Hnotin Hnd]%NoDup_cons. specialize (IH Hnd).
  destruct (f kv) as [y|] eqn:Hkv; [|done].
  apply NoDup_cons. split; [|done].
  intros (kv' & Hkv' & Hy)%list_elem_of_omap.
  apply Hf in Hkv as ->. apply Hf in Hy. apply Hnotin.
  apply list_elem_of_fmap. exists kv'. done.
Qed.

Lemma createSubcircuitElement_Some env s y :
  createSubcircuitElement env s = Some y ↔
  y = s ∧ s ≠ EmptyString ∧ is_Some (scopeList env !! s).
Proof.
  unfold createSubcircuitElement. destruct (truthy_str s) eqn:Hs; simpl.
  - apply truthy_str_true in Hs.
    destruct (scopeList env !! s) as [n|]; split.
    + intros [= <-]. eauto.
    + by intros (-> & _).
    + done.
    + by intros (_ & _ & [? ?]).
  - apply truthy_str_false in Hs. split; [done|]. by intros (_ & ? & _).
Qed.

(** Lines 123-148. *)
Lemma root_subcircuits_spec env sid m s :
  s ∈ root_subcircuits env sid m ↔
  s ≠ EmptyString ∧ is_Some (scopeList env !! s) ∧ s ≠ sid ∧ m !! s = None.
Proof.
  unfold root_subcircuits. rewrite list_elem_of_omap. split.
  - intros ([k n] & Hin & Hf). simpl in Hf.
    destruct (String.eqb k sid) eqn:Hk; [done|].
    apply String.eqb_neq in Hk.
    destruct (m !! k) eqn:Hm; [done|].
    apply createSubcircuitElement_Some in Hf as (-> & ? & ?). done.
  - intros (Hne & [n Hn] & Hsid & Hm). exists (s, n). split.
    + by apply elem_of_map_to_list.
    + simpl. apply String.eqb_neq in Hsid. rewrite Hsid, Hm.
      apply createSubcircuitElement_Some. eauto.
Qed.

Lemma root_subcircuits_NoDup env sid m : NoDup (root_subcircuits env sid m).
Proof.
  apply NoDup_omap_keys; [|apply NoDup_fst_map_to_list].
  intros [k n] y. simpl. destruct (String.eqb k sid); [done|].
  destruct (m !! k); [done|]. by intros (-> & _)%createSubcircuitElement_Some.
Qed.

(** Lines 244-255. *)
Lemma folder_subcircuits_spec env m fid s :
  s ∈ folder_subcircuits env m fid ↔
  s ≠ EmptyString ∧ is_Some (scopeList env !! s) ∧ m !! s = Some fid.
Proof.
  unfold folder_subcircuits. rewrite list_elem_of_omap. split.
  - intros ([k f] & Hin & Hf). simpl in Hf.
    destruct (String.eqb f fid) eqn:Hk; [|done].
    apply String.eqb_eq in Hk as ->.
    apply createSubcircuitElement_Some in Hf as (-> & ? & ?).
    by apply elem_of_map_to_list in Hin.
  - intros (Hne & Hn & Hm). exists (s, fid). split.
    + by apply elem_of_map_to_list.
    + simpl. rewrite String.eqb_refl. apply createSubcircuitElement_Some. eauto.
Qed.


(** The item lists of the first loop: one per folder with an id, at the
    folder's index. *)
Lemma create_elements_items env m fs : ∀ i0 els0 items0 els items,
  create_elements env m i0 fs els0 items0 = (els, items) →
  ∀ j,
    items !! j =
      if decide (i0 ≤ j)
      then match fs !! (j - i0) with
           | Some f => if invalid_folder f then items0 !! j
                       else Some (folder_subcircuits env m (id f))
           | None => items0 !! j
           end
      else items0 !! j.
Proof.
  induction fs as [|f rest IH]; intros i0 els0 items0 els items Hce j.
  - simpl in Hce. injection Hce as <- <-. by destruct (decide _).
  - simpl in Hce.
    destruct (invalid_folder f) eqn:Hf.
    + rewrite (IH _ _ _ _ _ Hce j).
      destruct (decide (S i0 ≤ j)) as [Hj|Hj].
      * rewrite decide_True by lia.
        replace (j - i0) with (S (j - S i0)) by lia. done.
      * destruct (decide (i0 ≤ j)) as [Hj'|]; [|done].
        assert (j = i0) as -> by lia. rewrite Nat.sub_diag. simpl. by rewrite Hf.
    + rewrite (IH _ _ _ _ _ Hce j).
      destruct (decide (S i0 ≤ j)) as [Hj|Hj].
      * rewrite decide_True by lia.
        replace (j - i0) with (S (j - S i0)) by lia. simpl.
        rewrite lookup_insert_ne by lia. done.
      * destruct (decide (i0 ≤ j)) as [Hj'|].
        -- assert (j = i0) as -> by lia. rewrite Nat.sub_diag. simpl. rewrite Hf.
           apply lookup_insert_eq.
        -- apply lookup_insert_ne. lia.
Qed.

Lemma build_dom_items env sc i :
  folder_items (build_dom env sc) !! i =
    match default [] (folders sc) !! i with
    | Some f => if invalid_folder f then None
                else Some (folder_subcircuits env (entries (Some sc)) (id f))
    | None => None
    end.
Proof.
  unfold build_dom.
  destruct (create_elements _ _ _ _ _ _) as [els items] eqn:Hce.
  destruct (organize_hierarchy _ _ _ _) as [pl err]. simpl.
  rewrite (create_elements_items _ _ _ _ _ _ _ _ Hce i).
  rewrite decide_True by lia. rewrite Nat.sub_0_r.
  destruct (_ !! i) as [f|]; [|done]. by destruct (invalid_folder f).
Qed.

Lemma build_dom_root env sc :
  root_items (build_dom env sc) = root_subcircuits env (scope_id sc) (entries (Some sc)).
Proof.
  unfold build_dom.
  destruct (create_elements _ _ _ _ _ _) as [els items].
  by destruct (organize_hierarchy _ _ _ _) as [pl err].
Qed.

(** X6.  Under Root the structure lists, each once, exactly the loaded circuits
    other than the current one that have no entry in the subcircuit map. *)
Theorem root_lists_unmapped_subcircuits env sc :
  ∃ sc' dom,
    createFolderStructure env (Some sc) = Some (sc', dom)
    ∧ NoDup (root_items dom)
    ∧ ∀ s, s ∈ root_items dom ↔
           s ≠ EmptyString ∧ is_Some (scopeList env !! s)
           ∧ s ≠ scope_id sc ∧ entries (Some sc) !! s = None.
Proof.
  eexists _, _. split; [reflexivity|]. rewrite build_dom_root. split.
  - apply root_subcircuits_NoDup.
  - intros s. apply root_subcircuits_spec.
Qed.


(** X8.  A subcircuit whose map entry names a folder that is not in the
    collection is listed nowhere: not under Root, since it has an entry,
    and in no folder. *)
Theorem subcircuit_of_missing_folder_is_hidden env sc s fid :
  entries (Some sc) !! s = Some fid →
  (∀ f, f ∈ (default [] (folders sc)) → id f ≠ fid) →
  ∃ sc' dom,
    createFolderStructure env (Some sc) = Some (sc', dom)
    ∧ (s ∉ root_items dom)
    ∧ ∀ i L, folder_items dom !! i = Some L → s ∉ L.
Proof.
  intros Hs Hmiss. eexists _, _. split; [reflexivity|]. split.
  - rewrite build_dom_root. intros (_ & _ & _ & Hnone)%root_subcircuits_spec. congruence.
  - intros i L. rewrite build_dom_items.
    destruct (_ !! i) as [f|] eqn:Hi; [|done].
    destruct (invalid_folder f); [done|]. intros [= <-].
    intros (_ & _ & Hm)%folder_subcircuits_spec.
    apply (Hmiss f); [by eapply list_elem_of_lookup_2|].
    unfold entries in Hs. congruence.
Qed.

(** X9.  No subcircuit is listed twice: a subcircuit in the list of a folder is
    not under Root, and when the folder ids are pairwise distinct it is in
    no other folder's list. *)
Theorem no_subcircuit_listed_twice env sc :
  ∃ sc' dom,
    createFolderStructure env (Some sc) = Some (sc', dom)
    ∧ ∀ i L s, folder_items dom !! i = Some L → s ∈ L →
        (s ∉ root_items dom)
        ∧ (NoDup (id <$> (default [] (folders sc))) →
           ∀ j L', folder_items dom !! j = Some L' → s ∈ L' → j = i).
Proof.
  eexists _, _. split; [reflexivity|]. intros i L s. rewrite build_dom_items.
  destruct (_ !! i) as [f|] eqn:Hi; [|done].
  destruct (invalid_folder f); [done|]. intros [= <-].
  intros (_ & _ & Hm)%folder_subcircuits_spec. split.
  - rewrite build_dom_root. intros (_ & _ & _ & Hnone)%root_subcircuits_spec.
    unfold entries in *. congruence.
  - intros Hnd j L'. rewrite build_dom_items.
    destruct (_ !! j) as [g|] eqn:Hj; [|done].
    destruct (invalid_folder g); [done|]. intros [= <-].
    intros (_ & _ & Hm')%folder_subcircuits_spec.
    assert (id g = id f) as Hid by congruence.
    eapply (NoDup_lookup _ j i (id f) Hnd); rewrite list_lookup_fmap.
    + by rewrite Hj, <- Hid.
    + by rewrite Hi.
Qed.

(** ** createFolderStructure: where the folders are placed *)






(** ** A move and the panel it renders *)

Lemma rendered_trace env sc tail :
  folderPanelContainer env = true →
  ((renderFolderPanel env sc).2 ++ tail)%list = PanelRendered (build_dom env sc) :: tail.
Proof. intros Hc. unfold renderFolderPanel. by rewrite Hc. Qed.

(** X12.  After a move into a folder the panel that is rendered lists the
    subcircuit in the folders with the destination id, and nowhere else:
    not under Root and in no other folder. *)
Theorem moved_subcircuit_is_listed_in_its_folder env sid fid sc :
  movable env sid fid sc →
  folderPanelContainer env = true →
  ∃ dom,
    trace (moveSubcircuitToFolder env sid (Some fid) (Some sc))
    = [PanelRendered dom; ScheduleBackup;
       ShowMessage "Subcircuit moved to folder successfully"]
    ∧ (sid ∉ root_items dom)
    ∧ (∃ i L, folder_items dom !! i = Some L ∧ sid ∈ L)
    ∧ ∀ i L, folder_items dom !! i = Some L →
        (sid ∈ L ↔ ∃ f, default [] (folders sc) !! i = Some f ∧ id f = fid).
Proof.
  intros Hmv Hc. rewrite (movable_run _ _ _ _ Hmv), finish_move_parts.
  pose proof (mv_named _ _ _ _ Hmv) as Hf. pose proof Hf as Hf'.
  apply truthy_str_true in Hf'. cbn [trace]. rewrite Hf'.
  rewrite rendered_trace by done.
  set (moved := with_map sc _). exists (build_dom env moved). split; [done|].
  assert (entries (Some moved) !! sid = Some fid) as Hsid by apply lookup_insert_eq.
  assert (∀ i L, folder_items (build_dom env moved) !! i = Some L →
            sid ∈ L ↔ ∃ f, default [] (folders sc) !! i = Some f ∧ id f = fid) as Hiff.
  { intros i L. rewrite build_dom_items.
    change (folders moved) with (folders sc).
    destruct (default [] (folders sc) !! i) as [f|] eqn:Hi; [|done].
    destruct (invalid_folder f); [done|]. intros [= <-].
    rewrite folder_subcircuits_spec. split.
    - intros (_ & _ & Hm). exists f. split; [done|].
      rewrite lookup_insert_eq in Hm. by injection Hm.
    - intros (g & [= <-] & Hg). split; [exact (mv_id _ _ _ _ Hmv)|].
      split; [exact (mv_loaded _ _ _ _ Hmv)|]. rewrite <- Hg. apply lookup_insert_eq. }
  split; [|split; [|exact Hiff]].
  - rewrite build_dom_root. intros (_ & _ & _ & Hnone)%root_subcircuits_spec.
    congruence.
  - destruct (mv_folder _ _ _ _ Hmv) as (fs & Hfs & (g & -> & Hg)%list_elem_of_fmap).
    apply list_elem_of_lookup in Hg as (i & Hi). exists i.
    pose proof (build_dom_items env moved i) as Hitems.
    change (folders moved) with (folders sc) in Hitems.
    rewrite Hfs in Hitems. simpl in Hitems. rewrite Hi in Hitems.
    unfold invalid_folder in Hitems. rewrite Hf' in Hitems. simpl in Hitems.
    eexists. split; [exact Hitems|].
    apply (Hiff i _ Hitems). exists g. rewrite Hfs. done.
Qed.

(** X13.  After a move to root the panel that is rendered lists the subcircuit
    under Root (unless it is the current circuit, which Root never lists)
    and in no folder. *)
Theorem subcircuit_moved_to_root_is_listed_under_root env sid sc :
  sid ≠ EmptyString → is_Some (scopeList env !! sid) →
  folderPanelContainer env = true →
  ∃ dom,
    trace (moveSubcircuitToFolder env sid None (Some sc))
    = [PanelRendered dom; ScheduleBackup;
       ShowMessage "Subcircuit moved to root successfully"]
    ∧ (sid ∈ root_items dom ↔ sid ≠ scope_id sc)
    ∧ ∀ i L, folder_items dom !! i = Some L → sid ∉ L.
Proof.
  intros Hid Hn Hc. rewrite (root_run _ _ _ Hid Hn), finish_move_parts.
  cbn [trace]. rewrite rendered_trace by done.
  set (moved := with_map sc _). exists (build_dom env moved). split; [done|].
  assert (entries (Some moved) !! sid = None) as Hsid by apply lookup_delete_eq.
  split.
  - rewrite build_dom_root, root_subcircuits_spec. change (scope_id moved) with (scope_id sc).
    split; [by intros (_ & _ & ? & _)|]. intros Hne.
    split; [done|]. split; [done|]. split; [done|]. apply lookup_delete_eq.
  - intros i L. rewrite build_dom_items.
    destruct (_ !! i) as [f|]; [|done]. destruct (invalid_folder f); [done|].
    intros [= <-] (_ & _ & Hm)%folder_subcircuits_spec.
    rewrite lookup_delete_eq in Hm. done.
Qed.

(** ** The sample session *)

(** ["sub1"] sits in root and can be moved into the folder ["f1"]. *)
Lemma sample_move_is_movable : movable sample_env "sub1" "f1" sample_scope.
Proof.
  split.
  - discriminate.
  - by eexists.
  - eexists. split; [reflexivity|]. simpl. apply list_elem_of_singleton. reflexivity.
  - discriminate.
  - vm_compute. discriminate.
Qed.

(** The sample scope once ["sub1"] is in ["f1"]. *)
Definition moved_scope : Scope :=
  mkScope "main" (Some [mkFolder "f1" "Arithmetic" None]) (Some {[ "sub1" := "f1" ]}).

Lemma sample_move_result :
  scope_after (moveSubcircuitToFolder sample_env "sub1" (Some "f1") (Some sample_scope))
  = Some moved_scope.
Proof. vm_compute. reflexivity. Qed.

(** A scope whose map still names a folder that is gone. *)
Definition stale_scope : Scope :=
  mkScope "main" (Some [mkFolder "f1" "Arithmetic" None]) (Some {[ "sub1" := "gone" ]}).


Lemma move_to_folder_records_entry_witness :
  let r := moveSubcircuitToFolder sample_env "sub1" (Some "f1") (Some sample_scope) in
  entries (scope_after r) !! "sub1" = Some "f1" ∧ backups r = 1.
Proof.
  destruct (move_to_folder_records_entry sample_env "sub1" "f1" sample_scope
              sample_move_is_movable) as (_ & Hentry & _ & Hbackup).
  split; assumption.
Defined.

Lemma second_move_is_noop_witness :
  moveSubcircuitToFolder sample_env "sub1" (Some "f1") (Some moved_scope)
  = mkMove (Some moved_scope) [] VUndef.
Proof.
  apply (second_move_is_noop sample_env "sub1" "f1" sample_scope).
  - exact sample_move_is_movable.
  - exact sample_move_result.
Defined.

Lemma move_to_root_clears_entry_witness :
  let r := moveSubcircuitToFolder sample_env "sub1" None (Some moved_scope) in
  entries (scope_after r) = delete "sub1" (entries (Some moved_scope)) ∧ backups r = 1.
Proof.
  destruct (move_to_root_clears_entry sample_env "sub1" moved_scope)
    as (Hentries & _ & Hbackup).
  - discriminate.
  - by eexists.
  - split; assumption.
Defined.

Lemma move_and_back_restores_map_witness :
  entries (scope_after (moveSubcircuitToFolder sample_env "sub1" None (Some moved_scope)))
  = entries (Some sample_scope).
Proof.
  apply (move_and_back_restores_map sample_env "sub1" "f1" sample_scope moved_scope).
  - exact sample_move_is_movable.
  - reflexivity.
  - exact sample_move_result.
Defined.

Lemma subcircuit_of_missing_folder_is_hidden_witness :
  ∃ sc' dom,
    createFolderStructure sample_env (Some stale_scope) = Some (sc', dom)
    ∧ ("sub1" ∉ root_items dom)
    ∧ ∀ i L, folder_items dom !! i = Some L → "sub1" ∉ L.
Proof.
  apply (subcircuit_of_missing_folder_is_hidden sample_env stale_scope "sub1" "gone").
  - reflexivity.
  - intros f Hf. apply list_elem_of_In in Hf. simpl in Hf.
    destruct Hf as [<-|[]]. discriminate.
Defined.



Lemma moved_subcircuit_is_listed_in_its_folder_witness :
  ∃ dom,
    trace (moveSubcircuitToFolder sample_env "sub1" (Some "f1") (Some sample_scope))
    = [PanelRendered dom; ScheduleBackup;
       ShowMessage "Subcircuit moved to folder successfully"]
    ∧ ("sub1" ∉ root_items dom)
    ∧ ∃ i L, folder_items dom !! i = Some L ∧ "sub1" ∈ L.
Proof.
  destruct (moved_subcircuit_is_listed_in_its_folder sample_env "sub1" "f1" sample_scope
              sample_move_is_movable eq_refl) as (dom & Htrace & Hroot & Hin & _).
  exists dom. split; [exact Htrace|]. split; [exact Hroot|exact Hin].
Defined.

Lemma subcircuit_moved_to_root_is_listed_under_root_witness :
  ∃ dom,
    trace (moveSubcircuitToFolder sample_env "sub1" None (Some moved_scope))
    = [PanelRendered dom; ScheduleBackup;
       ShowMessage "Subcircuit moved to root successfully"]
    ∧ "sub1" ∈ root_items dom
    ∧ ∀ i L, folder_items dom !! i = Some L → "sub1" ∉ L.
Proof.
  destruct (subcircuit_moved_to_root_is_listed_under_root sample_env "sub1" moved_scope)
    as (dom & Htrace & Hroot & Hnone).
  - discriminate.
  - by eexists.
  - reflexivity.
  - exists dom. split; [exact Htrace|]. split; [|exact Hnone].
    apply Hroot. discriminate.
Defined.

End FolderPanelLaws.

(* ====================================================================== *)
(** * The folder panel: showing and hiding (toggleFolderPanel) *)
(* ====================================================================== *)
Module PanelVisibility.

(** The two markups line 1005-1009 give the toggle button. *)
Inductive caption := HideFolders | SubcircuitFolders.

(** The panel container and the toggle button, as far as
    [toggleFolderPanel] looks at them: whether the container carries the
    class [show], and what the button (if the document has one) says. *)
Record Panel := mkPanel {
  show : bool;
  toggleBtn : option caption
}.

(** What the function asks of [renderFolderPanel(globalScope)]: a call now,
    or one from a timer. *)
Inductive render_request := RenderNow | RenderAfter (ms : nat).

(** [toggleFolderPanel()] (lines 996-1023) on an initialised container. *)
Definition toggle (p : Panel) : Panel * render_request :=
  let isBeingShown := negb (show p) in
  let shown := negb (show p) in
  let btn :=
    match toggleBtn p with
    | Some _ => Some (if shown then HideFolders else SubcircuitFolders)
    | None => None
    end in
  (mkPanel shown btn, if isBeingShown then RenderAfter 50 else RenderNow).

(** [folderPanelContainer] may still be [null]: then nothing happens. *)
Definition toggleFolderPanel (container : option Panel)
    : option Panel * list render_request :=
  match container with
  | Some p => let '(p', r) := toggle p in (Some p', [r])
  | None => (None, [])
  end.

(** [n] clicks on the button. *)
Fixpoint clicks (n : nat) (container : option Panel)
    : option Panel * list render_request :=
  match n with
  | O => (container, [])
  | S n' =>
      let '(c1, r1) := toggleFolderPanel container in
      let '(c2, r2) := clicks n' c1 in
      (c2, (r1 ++ r2)%list)
  end.

End PanelVisibility.

Module PanelVisibilityFacts.
Import PanelVisibility.

Lemma clicks_on_panel n : ∀ p,
  ∃ p' rs, clicks n (Some p) = (Some p', rs)
    ∧ show p' = xorb (Nat.odd n) (show p)
    ∧ length rs = n
    ∧ (toggleBtn p = None → toggleBtn p' = None)
    ∧ (0 < n → is_Some (toggleBtn p) →
       toggleBtn p' = Some (if show p' then HideFolders else SubcircuitFolders))
    ∧ (0 < n → last rs = Some (if show p' then RenderAfter 50 else RenderNow)).
Proof.
  induction n as [|n IH]; intros p.
  - exists p, []. simpl. split; [done|]. split; [by destruct (show p)|].
    split; [done|]. split; [done|]. split; intros; lia.
  - simpl.
    destruct (IH (toggle p).1) as (p' & rs & Hrun & Hshow & Hlen & Hnone & Hbtn & Hlast).
    unfold toggle in *. simpl in *. rewrite Hrun. eexists _, _. split; [reflexivity|].
    split.
    { rewrite Hshow, Nat.odd_succ, <- Nat.negb_odd. by destruct (Nat.odd n), (show p). }
    split; [simpl; lia|]. split.
    { intros Hn. apply Hnone. by rewrite Hn. }
    split.
    + intros _ [c Hc]. destruct n as [|n].
      * simpl in Hrun. injection Hrun as <- <-. simpl. by rewrite Hc.
      * apply Hbtn; [lia|]. rewrite Hc. by eexists.
    + intros _. destruct n as [|n].
      * simpl in Hrun. injection Hrun as <- <-. simpl. by destruct (show p).
      * destruct rs as [|r rs']; [simpl in Hlen; lia|].
        change (last (?x :: r :: rs')) with (last (r :: rs')). apply Hlast. lia.
Qed.

(** X14.  After any number of clicks the visibility of the panel has changed
    exactly when the number of clicks is odd, a button, if there is one,
    says "Hide Folders" exactly when the panel is shown, each click asks
    for one rendering, and the last one is deferred by 50 ms exactly when
    the panel has just been opened. *)
Theorem toggle_button_follows_the_panel n p :
  ∃ p' rs,
    clicks n (Some p) = (Some p', rs)
    ∧ show p' = xorb (Nat.odd n) (show p)
    ∧ length rs = n
    ∧ (0 < n → is_Some (toggleBtn p) →
       toggleBtn p' = Some (if show p' then HideFolders else SubcircuitFolders))
    ∧ (0 < n → last rs = Some (if show p' then RenderAfter 50 else RenderNow)).
Proof.
  destruct (clicks_on_panel n p) as (p' & rs & H1 & H2 & H3 & _ & H4 & H5).
  by exists p', rs.
Qed.

End PanelVisibilityFacts.

(* ====================================================================== *)
(** * The folder panel: drag and drop *)
(* ====================================================================== *)
Module DragDrop.
Import FolderPanel.

(** The module variables of lines 22-34.  [draggedOverFolder] is the
    container last dragged over, named by the folder it belongs to ([None]
    inside is the root container). *)
Record DragState := mkDrag {
  dragInProgress : bool;
  draggedSubcircuitId : option string;
  draggedOverFolder : option (option string)
}.

(** The state the module starts in, and [dragend] returns to. *)
Definition idle : DragState := mkDrag false None None.

(** [dragstart] on the item of [subcircuitId] (lines 334-355). *)
Definition on_dragstart (subcircuitId : string) (d : DragState) : DragState :=
  mkDrag true (Some subcircuitId) (draggedOverFolder d).

(** [dragover] on a container (lines 85-93 and 206-214). *)
Definition on_dragover (target : option string) (d : DragState) : DragState :=
  mkDrag (dragInProgress d) (draggedSubcircuitId d) (Some target).

(** [dragend] on an item (lines 357-380). *)
Definition on_dragend (d : DragState) : DragState := idle.

(** [draggedSubcircuitId || e.dataTransfer.getData('text/plain')] *)
Definition dropped_id (d : DragState) (data : string) : string :=
  match draggedSubcircuitId d with
  | Some s => if truthy_str s then s else data
  | None => data
  end.

(** [drop] on a container (lines 101-121 for root, 222-242 for a folder):
    [target] is [null] for the root container and the folder's id
    otherwise, [data] what the event's [dataTransfer] holds as text.  The
    result is the new drag state and what the move, if one was asked for,
    left behind. *)
Definition on_drop (env : Env) (target : option string) (data : string)
    (scope : Scope) (d : DragState) : DragState * option MoveResult :=
  let subcircuitId := dropped_id d data in
  if truthy_str subcircuitId then
    (mkDrag (dragInProgress d) None (draggedOverFolder d),
     Some (moveSubcircuitToFolder env subcircuitId target (Some scope)))
  else (d, None).

End DragDrop.

Module DragDropFacts.
Import FolderPanel FolderPanelFacts FolderPanelLaws DragDrop.

(** X15.  Dragging an item of the panel onto the container of a folder of the
    panel moves that subcircuit into that folder, whatever the event's
    transfer data says and whatever drag state was left over: the map gets
    the entry, one backup is scheduled, and after [dragend] the module is
    idle again.  (The item exists for a loaded subcircuit with an id, the
    container for a folder with an id; the folder is not the one the
    subcircuit is in.) *)
Theorem drop_moves_the_dragged_subcircuit env sc d sid f data :
  createSubcircuitElement env sid = Some sid →
  f ∈ default [] (folders sc) → id f ≠ EmptyString →
  currentFolder (entries (Some sc)) sid ≠ id f →
  let dropped :=
    on_drop env (Some (id f)) data sc (on_dragover (Some (id f)) (on_dragstart sid d)) in
  ∃ r,
    dropped.2 = Some r
    ∧ entries (scope_after r) = <[sid := id f]> (entries (Some sc))
    ∧ backups r = 1
    ∧ draggedSubcircuitId dropped.1 = None
    ∧ on_dragend dropped.1 = idle.
Proof.
  intros Hitem Hf Hid Hcur dropped. subst dropped.
  assert (sid ≠ EmptyString ∧ is_Some (scopeList env !! sid)) as [Hsid Hloaded].
  { unfold createSubcircuitElement in Hitem.
    destruct (truthy_str sid) eqn:Hs; [|done]. apply truthy_str_true in Hs.
    split; [done|]. simpl in Hitem. by destruct (scopeList env !! sid). }
  assert (movable env sid (id f) sc) as Hmv.
  { split; try done. destruct (folders sc) as [fs|]; simpl in Hf.
    - exists fs. split; [done|]. apply list_elem_of_fmap. eauto.
    - by apply elem_of_nil in Hf. }
  unfold on_drop, dropped_id, on_dragover, on_dragstart. simpl.
  pose proof Hsid as Hs. apply truthy_str_true in Hs. rewrite Hs. simpl.
  rewrite Hs. simpl. eexists. split; [reflexivity|].
  rewrite (movable_run _ _ _ _ Hmv), backups_finish_move, finish_move_entries.
  done.
Qed.

Lemma drop_moves_the_dragged_subcircuit_witness :
  let dropped :=
    on_drop sample_env (Some "f1") "stale text" sample_scope
      (on_dragover (Some "f1") (on_dragstart "sub1" (mkDrag false (Some "old") None))) in
  ∃ r,
    dropped.2 = Some r
    ∧ entries (scope_after r) !! "sub1" = Some "f1"
    ∧ backups r = 1
    ∧ draggedSubcircuitId dropped.1 = None.
Proof.
  destruct (drop_moves_the_dragged_subcircuit sample_env sample_scope
              (mkDrag false (Some "old") None) "sub1"
              (mkFolder "f1" "Arithmetic" None) "stale text")
    as (r & Hr & Hentries & Hbackups & Hid & _).
  - reflexivity.
  - simpl. apply list_elem_of_singleton. reflexivity.
  - discriminate.
  - vm_compute. discriminate.
  - exists r. split; [exact Hr|]. split; [|split; [exact Hbackups|exact Hid]].
    rewrite Hentries. apply lookup_insert_eq.
Defined.

End DragDropFacts.

(* ====================================================================== *)
(** * The loader: errors, restored values, and the cleanup pass again *)
(* ====================================================================== *)
Module LoaderLaws.
Import Loader LoaderFacts.

#[local] Hint Resolve reads_ret reads_throw reads_unmodelled reads_getp reads_geti
  reads_spread_props reads_own_keys reads_doc_items reads_instanceof_Array
  reads_arith reads_math_max reads_half reads_array_length reads_current_item
  reads_get_globalScope reads_spread_args : reads.

(** ** rectifyObjectType (lines 25-31) *)

(** X16.  Rectifying twice is rectifying once, and no rectified tag is one of
    the two legacy tags. *)
Theorem rectification_is_idempotent v :
  rectifyObjectType (rectifyObjectType v) = rectifyObjectType v
  ∧ rectifyObjectType v ≠ VStr "FlipFlop"
  ∧ rectifyObjectType v ≠ VStr "Ram".
Proof.
  destruct v as [| | | | |tag| | |]; try done.
  unfold rectifyObjectType, rectify. simpl.
  destruct (String.eqb tag "FlipFlop") eqn:E1; [done|].
  destruct (String.eqb tag "Ram") eqn:E2; [done|].
  simpl. rewrite E1, E2. simpl.
  apply String.eqb_neq in E1, E2. split; [done|]. split; intros [= ->]; done.
Qed.

Section elements.
Context `{Collaborators}.

(** ** loadModule (lines 39-79) *)

(** X17.  A record without [customData] cannot be loaded: line 41 reads
    [data.customData.constructorParamaters] and throws before anything is
    constructed.  And a record whose rectified type tag has no constructor
    in the registry makes [new] throw. *)
Theorem loadModule_rejects_malformed_record :
  (∀ kvs scope w,
     assoc_get "customData" kvs = VUndef ∨ assoc_get "customData" kvs = VNull →
     loadModule (VObj kvs) scope w
     = Throw "TypeError: cannot read properties of undefined or null")
  ∧ (∀ kvs cd tag scope w,
       assoc_get "customData" kvs = VObj cd →
       assoc_get "constructorParamaters" cd = VUndef →
       assoc_get "objectType" kvs = VStr tag →
       (∀ tag', rectifyObjectType (VStr tag) = VStr tag' → modules tag' = None) →
       loadModule (VObj kvs) scope w
       = Throw "TypeError: modules[...] is not a constructor").
Proof.
  split.
  - intros kvs scope w Hcd. unfold loadModule, construct, bind, getp. simpl.
    by destruct Hcd as [-> | ->].
  - intros kvs cd tag scope w Hcd Hps Htag Hnone.
    unfold loadModule, construct, bind, getp, peek. cbv beta iota.
    rewrite Htag, Hcd. cbv beta iota. rewrite Hps.
    unfold spread_args, js_or, truthy, ret. cbv beta iota.
    destruct (rectifyObjectType (VStr tag)) as [| | | | |tag'| | |] eqn:Hr; try done.
    by rewrite (Hnone tag' eq_refl).
Qed.

(** What lines 52-78 are made of, from a run that ended normally. *)
Lemma element_tail_steps data obj w w' :
  (let* _ := element_fixDirection obj in
   let* _ := restore_values data obj in
   let* _ := replace_nodes data obj in
   attach_subcircuitMetadata data obj) w = Ok tt w' →
  ∃ w1 w2 w3,
    element_fixDirection obj w = Ok tt w1
    ∧ restore_values data obj w1 = Ok tt w2
    ∧ replace_nodes data obj w2 = Ok tt w3
    ∧ attach_subcircuitMetadata data obj w3 = Ok tt w'.
Proof.
  intros ([] & w1 & H1 & Hrun)%bind_Ok.
  apply bind_Ok in Hrun as ([] & w2 & H2 & Hrun).
  apply bind_Ok in Hrun as ([] & w3 & H3 & H4).
  eauto 10.
Qed.

(** X18.  Line 78 is the last statement: a record's [subcircuitMetadata], when
    it has one, is what the loaded element ends up with, whatever the
    constructor or the overlays put there before. *)
Theorem subcircuit_metadata_is_attached kvs scope w lo w1 w' :
  construct (VObj kvs) scope w = Ok (VRef lo) w1 →
  loadModule (VObj kvs) scope w = Ok tt w' →
  truthy (assoc_get "subcircuitMetadata" kvs) = true →
  slot w' lo "subcircuitMetadata" = assoc_get "subcircuitMetadata" kvs.
Proof.
  intros Hcons Hload Hmeta.
  destruct (loadModule_steps _ _ _ _ _ _ Hcons Hload) as (w2 & w3 & _ & _ & Htail).
  apply element_tail_steps in Htail as (w4 & w5 & w6 & _ & _ & _ & Hattach).
  unfold attach_subcircuitMetadata in Hattach.
  apply bind_Ok in Hattach as (meta & ? & [-> ->]%getp_doc & Hset).
  rewrite Hmeta in Hset. by apply slot_after_setp in Hset as (_ & ? & _).
Qed.

(** Line 43 on a record [kvs] and the element at [lo]. *)
Lemma set_label_label kvs lo w w' :
  set_label (VObj kvs) (VRef lo) w = Ok tt w' →
  slot w' lo "label" = assoc_get "label" kvs.
Proof.
  unfold set_label.
  intros (label & ? & [-> ->]%getp_doc & Hrun)%bind_Ok.
  apply bind_Ok in Hrun as ([] & w1 & Hset1 & Hrun).
  apply bind_Ok in Hrun as (ld & ? & [-> ->]%getp_doc & Hrun).
  apply bind_Ok in Hrun as (dir & w2 & Hdir & Hset2).
  assert (w2 = w1) as ->.
  { destruct (truthy (assoc_get "labelDirection" kvs)).
    - by injection Hdir as _ <-.
    - apply bind_Ok in Hdir as (d & ? & ->%reads_getp & [= _ <-]). done. }
  apply slot_after_setp in Hset1 as (_ & Hl & _).
  apply slot_after_setp in Hset2 as (_ & _ & Hne).
  by rewrite Hne.
Qed.

(** X19.  The label of the loaded element is the record's [label], [undefined]
    when the record has none, as long as neither overlay names [label].
    ([obj.fixDirection()] and [replace] are taken not to touch it.) *)
Theorem label_is_copied kvs scope w lo w1 w' :
  construct (VObj kvs) scope w = Ok (VRef lo) w1 →
  loadModule (VObj kvs) scope w = Ok tt w' →
  keeps lo (eq "label") (element_fixDirection (VRef lo)) →
  (∀ a b, keeps lo (eq "label") (replace a b)) →
  (∀ w0, "label" ∉ overlay_keys w0 (VObj kvs) "values") →
  (∀ w0, "label" ∉ overlay_keys w0 (VObj kvs) "nodes") →
  slot w' lo "label" = assoc_get "label" kvs.
Proof.
  intros Hcons Hload Hfix Hrep Hvals Hnodes.
  destruct (loadModule_steps _ _ _ _ _ _ Hcons Hload) as (w2 & w3 & Hlabel & Hdelay & Htail).
  pose proof (set_label_leaves_object _ _ _ _ Hlabel) as Hobj2.
  apply set_label_label in Hlabel.
  apply set_delay_post in Hdelay as (_ & Hother & Hlt3); [|exact Hobj2].
  rewrite <- Hlabel, <- (Hother "label") by done.
  assert (holds lo (eq "label") (slot w3 lo) w') as [_ Hkept].
  { eapply (keeps_element_tail lo (eq "label") (VObj kvs) (VRef lo));
      [exact Hfix|exact Hrep| | | | |exact Htail].
    - intros w0 prop Hin. right. intros <-. by apply (Hvals w0).
    - intros w0 node Hin. right. intros <-. by apply (Hnodes w0).
    - by right.
    - by split. }
  by apply Hkept.
Qed.

(** Lines 56-60 over the keys [ks] of the values [vs]. *)
Lemma restore_each_value vs lo : ∀ ks w w',
  forEach ks (λ prop, let* v := getp (VObj vs) prop in setp (VRef lo) prop v) w = Ok tt w' →
  (∀ p, p ∈ ks → slot w' lo p = assoc_get p vs ∧ lo < length (heap w'))
  ∧ (∀ p, p ∉ ks → slot w' lo p = slot w lo p).
Proof.
  induction ks as [|k rest IH]; intros w w'; simpl.
  - intros [= <-]. split; [by intros p ?%elem_of_nil|done].
  - intros ([] & w1 & Hone & Hrest)%bind_Ok.
    apply bind_Ok in Hone as (v & ? & [-> ->]%getp_doc & Hset).
    pose proof (setp_leaves_object _ _ _ _ _ Hset) as (fields & Hcell).
    apply slot_after_setp in Hset as (_ & Hk & Hne).
    destruct (IH _ _ Hrest) as (Hin & Hout).
    assert (lo < length (heap w')) as Hlt.
    { assert (keeps lo (λ _, False)
                (forEach rest (λ prop, let* v := getp (VObj vs) prop in setp (VRef lo) prop v)))
        as Hk'.
      { apply keeps_forEach. intros x _. apply keeps_bind.
        - apply keeps_reads, reads_getp.
        - intros ?. apply keeps_setp. right. tauto. }
      eapply (Hk' (λ _, VUndef) w1 tt w'); [|exact Hrest].
      split; [by eapply lookup_lt_Some|done]. }
    split.
    + intros p Hp. split; [|done].
      destruct (decide (p ∈ rest)) as [Hr|Hr]; [by apply Hin|].
      apply elem_of_cons in Hp as [->|Hp]; [|done].
      by rewrite (Hout _ Hr).
    + intros p Hp. apply not_elem_of_cons in Hp as [Hpk Hp].
      by rewrite (Hout _ Hp), Hne.
Qed.

(** X20.  Every property stored in [customData.values] is put on the loaded
    element with its stored value, as long as [customData.nodes] does not
    name the same property and the record's [subcircuitMetadata], written
    last, does not replace it.  ([replace] is taken not to touch it.) *)
Theorem stored_values_are_restored kvs cd vs scope w lo w1 w' prop :
  construct (VObj kvs) scope w = Ok (VRef lo) w1 →
  loadModule (VObj kvs) scope w = Ok tt w' →
  assoc_get "customData" kvs = VObj cd →
  assoc_get "values" cd = VObj vs →
  prop ∈ vs.*1 →
  (∀ a b, keeps lo (eq prop) (replace a b)) →
  (∀ w0, prop ∉ overlay_keys w0 (VObj kvs) "nodes") →
  prop ≠ "subcircuitMetadata" ∨ truthy (assoc_get "subcircuitMetadata" kvs) = false →
  slot w' lo prop = assoc_get prop vs.
Proof.
  intros Hcons Hload Hcd Hvs Hprop Hrep Hnodes Hmeta.
  destruct (loadModule_steps _ _ _ _ _ _ Hcons Hload) as (w2 & w3 & _ & _ & Htail).
  apply element_tail_steps in Htail as (w4 & w5 & w6 & _ & Hvals & Hnode & Hattach).
  unfold restore_values in Hvals.
  apply bind_Ok in Hvals as (cd' & ? & [-> ->]%getp_doc & Hvals). rewrite Hcd in Hvals.
  apply bind_Ok in Hvals as (vs' & ? & [-> ->]%getp_doc & Hvals). rewrite Hvs in Hvals.
  simpl in Hvals.
  apply bind_Ok in Hvals as (ks & ? & [= <- <-] & Hvals).
  destruct (restore_each_value vs lo _ _ _ Hvals) as (Hin & _).
  destruct (Hin prop Hprop) as (Hval & Hlt).
  assert (holds lo (eq prop) (slot w5 lo) w6) as Hh6.
  { eapply (keeps_replace_nodes lo (eq prop) (VObj kvs) (VRef lo) Hrep); [| |exact Hnode].
    - intros w0 node Hn. right. intros <-. by apply (Hnodes w0).
    - by split. }
  assert (holds lo (eq prop) (slot w5 lo) w') as [_ Hkept].
  { destruct Hmeta as [Hne|Hfalsy].
    - eapply (keeps_attach_subcircuitMetadata lo (eq prop) (VObj kvs) (VRef lo));
        [|exact Hh6|exact Hattach]. by right.
    - unfold attach_subcircuitMetadata in Hattach.
      apply bind_Ok in Hattach as (meta & ? & [-> ->]%getp_doc & Hset).
      rewrite Hfalsy in Hset. by injection Hset as <-. }
  by rewrite (Hkept prop eq_refl).
Qed.

End elements.

(** ** removeBugNodes (lines 86-95) *)

(** Line 89 on a node that does not offend, followed by [k]: nothing is
    deleted. *)
Lemma test_clean_node `{Collaborators} node w (k : M unit) :
  bug_check w node = Some false →
  (let* type := getp node "type" in
   let* bug :=
     if negb (is_num type 2) then
       let* parent := getp node "parent" in
       let* objectType := getp parent "objectType" in
       ret (is_str objectType "CircuitElement")
     else ret false in
   let* _ := if bug then node_delete node else ret tt in
   k) w = k w.
Proof.
  unfold bug_check. intros Hcheck. unfold bind at 1. unfold getp at 1.
  destruct (peek w node "type") as [type|]; [|done]. cbn -[peek] in Hcheck.
  unfold bind at 1. destruct (negb (is_num type 2)).
  - unfold bind at 1. unfold getp at 1.
    destruct (peek w node "parent") as [parent|]; [|done]. cbn -[peek] in Hcheck.
    unfold bind at 1. unfold getp at 1.
    destruct (peek w parent "objectType") as [objectType|]; [|done].
    cbn -[peek] in Hcheck. injection Hcheck as ->. reflexivity.
  - reflexivity.
Qed.

Lemma geti_elements arr i w xs :
  elements w arr = Some xs → geti arr i w = Ok (default VUndef (xs !! i)) w.
Proof.
  intros He. unfold geti. destruct arr; try done; by rewrite He.
Qed.

Lemma removeBugNodes_loop_clean `{Collaborators} scope arr nodes w :
  peek w scope "allNodes" = Some arr →
  elements w arr = Some nodes →
  (∀ n, n ∈ nodes → bug_check w n = Some false) →
  ∀ fuel i, length nodes - i < fuel →
    removeBugNodes_loop fuel scope i (VNum (Z.of_nat (length nodes))) w = Ok tt w.
Proof.
  intros Hall Harr Hclean. induction fuel as [|fuel IH]; intros i Hfuel; [lia|].
  simpl. destruct (Z.of_nat i <? Z.of_nat (length nodes))%Z eqn:Hi; [|done].
  apply Z.ltb_lt in Hi.
  destruct (lookup_lt_is_Some_2 nodes i) as [n Hn]; [lia|].
  unfold bind at 1. unfold getp at 1. rewrite Hall.
  unfold bind at 1. rewrite (geti_elements _ _ _ _ Harr), Hn. simpl.
  rewrite test_clean_node by (apply Hclean; by eapply list_elem_of_lookup_2).
  unfold bind at 1. unfold getp at 1. rewrite Hall.
  unfold bind at 1. unfold getp at 1. rewrite (elements_length _ _ _ Harr).
  simpl. rewrite Z.eqb_refl. simpl. apply IH. lia.
Qed.

(** X21.  On a node list without offending nodes (an empty list in particular)
    the pass deletes nothing and leaves the world exactly as it was. *)
Theorem cleanup_leaves_clean_list_alone `{Collaborators} fuel scope arr nodes w :
  peek w scope "allNodes" = Some arr →
  elements w arr = Some nodes →
  (∀ n, n ∈ nodes → bug_check w n = Some false) →
  length nodes < fuel →
  removeBugNodes fuel scope w = Ok tt w.
Proof.
  intros Hall Harr Hclean Hfuel. unfold removeBugNodes.
  assert (is_undefined scope = false) as ->.
  { destruct scope; try done. }
  unfold bind at 1. unfold ret at 1.
  unfold bind at 1. unfold getp at 1. rewrite Hall.
  unfold bind at 1. unfold getp at 1. rewrite (elements_length _ _ _ Harr).
  apply (removeBugNodes_loop_clean scope arr nodes w Hall Harr Hclean). lia.
Qed.

(** The pass on the list of nodes alone. *)
Lemma filter_clean_without (bug : nat → bool) n xs :
  bug n = true →
  filter (λ x, bug x = false) (without n xs) = filter (λ x, bug x = false) xs.
Proof.
  intros Hn. unfold without. induction xs as [|x rest IH]; [done|].
  rewrite !filter_cons. destruct (decide (x ≠ n)) as [Hne|Heq].
  - rewrite filter_cons. by rewrite IH.
  - assert (x = n) as -> by (destruct (decide (x = n)); [done|by destruct Heq]).
    rewrite IH. destruct (decide (bug n = false)); [congruence|done].
Qed.

Lemma sweep_keeps_clean bug : ∀ fuel i xs r,
  sweep bug fuel i xs = Some r →
  filter (λ x, bug x = false) r = filter (λ x, bug x = false) xs.
Proof.
  induction fuel as [|fuel IH]; intros i xs r; [done|]. simpl.
  destruct (xs !! i) as [n|] eqn:Hi; [|by intros [= <-]].
  destruct (bug n) eqn:Hbug.
  - destruct (length (without n xs) =? length xs); intros Hrun.
    + by apply IH in Hrun.
    + apply IH in Hrun. by rewrite Hrun, filter_clean_without.
  - rewrite Nat.eqb_refl. apply IH.
Qed.

Lemma sweep_head_clean bug : ∀ fuel i xs r,
  sweep bug fuel i xs = Some r → 1 ≤ i →
  (∀ n, xs !! 0 = Some n → bug n = false) →
  ∀ n, r !! 0 = Some n → bug n = false.
Proof.
  induction fuel as [|fuel IH]; intros i xs r; [done|]. simpl.
  destruct (xs !! i) as [n|] eqn:Hi; [|by intros [= <-]].
  destruct (bug n) eqn:Hbug.
  - destruct (length (without n xs) =? length xs); intros Hrun Hi1 Hhead.
    + apply (IH _ _ _ Hrun); [lia|done].
    + apply (IH _ _ _ Hrun); [lia|].
      destruct xs as [|x0 tl]; [done|]. specialize (Hhead x0 eq_refl).
      unfold without. rewrite filter_cons.
      destruct (decide (x0 ≠ n)) as [_|Heq]; [by intros m [= <-]|].
      assert (x0 = n) as -> by (destruct (decide (x0 = n)); [done|by destruct Heq]).
      congruence.
  - rewrite Nat.eqb_refl. intros Hrun Hi1 Hhead. apply (IH _ _ _ Hrun); [lia|done].
Qed.

Lemma filter_all {A} (P : A → Prop) `{∀ x, Decision (P x)} (l : list A) :
  Forall P l → filter P l = l.
Proof.
  induction 1 as [|x rest Hx _ IH]; [done|].
  rewrite filter_cons. rewrite decide_True by done. by rewrite IH.
Qed.

Lemma sweep_complete bug fuel xs r :
  sweep bug fuel 0 xs = Some r →
  (∀ n, xs !! 0 = Some n → bug n = false) →
  r = filter (λ x, bug x = false) xs.
Proof.
  intros Hrun Hhead.
  rewrite <- (sweep_keeps_clean bug fuel 0 xs r Hrun).
  symmetry. apply filter_all. apply Forall_lookup. intros j n Hn.
  destruct j as [|j].
  - destruct fuel as [|fuel]; [done|]. simpl in Hrun.
    destruct (xs !! 0) as [m|] eqn:H0.
    + rewrite (Hhead m eq_refl), Nat.eqb_refl in Hrun.
      apply (sweep_head_clean bug fuel 1 xs r Hrun); [lia| |done].
      intros k Hk. apply Hhead. congruence.
    + injection Hrun as <-. congruence.
  - apply (sweep_clean_from_1 bug fuel 0 xs r Hrun) with (j := S j); [|lia|exact Hn].
    intros j' m Hj'. lia.
Qed.

Section cleanup.
Context `{Collaborators}.
Variables (sl al : nat) (w0 : world) (xs0 : list nat) (bug : nat → bool).

(** As before: the condition of line 89 can be read for every node, and
    deleting a node takes it out of the node list of the scope at [sl]. *)
Hypothesis bug_readable : ∀ n, n ∈ xs0 → bug_check w0 (VRef n) = Some (bug n).
Hypothesis delete_removes : ∀ n xs w,
  n ∈ xs0 → node_list sl al w0 xs0 xs w →
  node_delete (VRef n) w = delete_from (VRef sl) (VRef n) w.

Lemma removeBugNodes_is_sweep fuel w :
  node_list sl al w0 xs0 xs0 w →
  length xs0 + length xs0 * length xs0 < fuel →
  ∃ r w',
    sweep bug fuel 0 xs0 = Some r
    ∧ removeBugNodes fuel (VRef sl) w = Ok tt w'
    ∧ node_list sl al w0 xs0 r w'
    ∧ ∀ n, n ∈ r → bug_node w' (VRef n) = bug n.
Proof.
  intros Hnl Hfuel.
  destruct (sweep_terminates bug fuel 0 xs0) as (r & Hsweep); [lia|].
  pose proof (removeBugNodes_loop_sweep sl al w0 xs0 bug bug_readable delete_removes
                fuel 0 xs0 w Hnl) as Hloop.
  rewrite Hsweep in Hloop. destruct Hloop as (w' & Hrun & Hnl').
  exists r, w'. split; [done|]. split; [|split; [done|]].
  - pose proof Hnl as [(fields & Hsc & Hall) Harr _ _].
    unfold removeBugNodes. simpl.
    unfold bind at 1. unfold ret at 1.
    unfold bind at 1. unfold getp at 1. simpl. rewrite Hsc, Hall.
    unfold bind at 1. unfold getp at 1. simpl. rewrite Harr. simpl.
    by rewrite length_fmap.
  - intros n Hn. unfold bug_node.
    by rewrite (bug_check_same sl al w0 xs0 bug bug_readable w' r n Hnl' Hn).
Qed.

(** X22.  What the pass does to any node list: given enough fuel it returns; it
    never deletes a node that does not offend, so these are all still
    there, in their order; and from index 1 on no offending node is left,
    so at most one offending node survives, at the head of the list. *)
Theorem cleanup_leaves_at_most_one_offender fuel w :
  node_list sl al w0 xs0 xs0 w →
  length xs0 + length xs0 * length xs0 < fuel →
  ∃ r w',
    removeBugNodes fuel (VRef sl) w = Ok tt w'
    ∧ node_list sl al w0 xs0 r w'
    ∧ filter (λ n, bug n = false) r = filter (λ n, bug n = false) xs0
    ∧ ∀ j n, 1 ≤ j → r !! j = Some n → bug_node w' (VRef n) = false.
Proof.
  intros Hnl Hfuel.
  destruct (removeBugNodes_is_sweep fuel w Hnl Hfuel) as (r & w' & Hsweep & Hrun & Hnl' & Hbug).
  exists r, w'. split; [done|]. split; [done|]. split.
  - by apply (sweep_keeps_clean bug fuel 0 xs0 r).
  - intros j n Hj Hn. rewrite (Hbug n) by (by eapply list_elem_of_lookup_2).
    eapply (sweep_clean_from_1 bug fuel 0 xs0 r Hsweep); [|exact Hj|exact Hn].
    intros j' m Hj'. lia.
Qed.

(** X23.  When the first node of the list does not offend, the pass does reach
    its fixed point: what is left is the list without its offending nodes,
    and no node of it offends. *)
Theorem cleanup_is_complete_when_first_node_is_clean fuel w :
  node_list sl al w0 xs0 xs0 w →
  (∀ n, xs0 !! 0 = Some n → bug n = false) →
  length xs0 + length xs0 * length xs0 < fuel →
  ∃ r w',
    removeBugNodes fuel (VRef sl) w = Ok tt w'
    ∧ node_list sl al w0 xs0 r w'
    ∧ r = filter (λ n, bug n = false) xs0
    ∧ ∀ n, n ∈ r → bug_node w' (VRef n) = false.
Proof.
  intros Hnl Hhead Hfuel.
  destruct (removeBugNodes_is_sweep fuel w Hnl Hfuel) as (r & w' & Hsweep & Hrun & Hnl' & Hbug).
  pose proof (sweep_complete bug fuel xs0 r Hsweep Hhead) as Hr.
  exists r, w'. split; [done|]. split; [done|]. split; [done|].
  intros n Hn. rewrite (Hbug n Hn). rewrite Hr in Hn.
  by apply list_elem_of_filter in Hn as [? _].
Qed.

End cleanup.

(** ** loadScope (lines 103-188) *)

Lemma setp_ids v k x w w' : setp v k x w = Ok tt w' → ids w' = ids w.
Proof. by intros (l & fields & -> & _ & ->)%setp_Ok. Qed.

Section scopes.
Context `{Collaborators}.

(** X24.  A scope document without a node list cannot be loaded: line 111 calls
    [data.allNodes.forEach] and throws before any node, element or wire is
    touched. *)
Theorem loadScope_needs_the_node_list fuel scope kvs w :
  is_Some (spread w scope) →
  assoc_get "allNodes" kvs = VUndef ∨ assoc_get "allNodes" kvs = VNull →
  loadScope fuel scope (VObj kvs) w
  = Throw "TypeError: cannot read properties of undefined or null".
Proof.
  intros [props Hprops] Hall.
  unfold loadScope, copy_scope, load_elements, bind, spread_props, getp, alloc.
  rewrite Hprops. simpl. by destruct Hall as [-> | ->].
Qed.

(** Lines 135-149 on a document [kvs] and the scope at [nl]. *)
Lemma restore_metadata_post nl kvs w w' :
  restore_metadata (VRef nl) (VObj kvs) w = Ok tt w' →
  ids w' = ids w
  ∧ (truthy (assoc_get "verilogMetadata" kvs) = true →
     slot w' nl "verilogMetadata" = assoc_get "verilogMetadata" kvs)
  ∧ (∀ tb, assoc_get "testbenchData" kvs = VObj tb →
       slot w' nl "testbenchData" =
         TestbenchData (assoc_get "testData" tb) (assoc_get "currentGroup" tb)
           (assoc_get "currentCase" tb))
  ∧ (∀ k, k ≠ "verilogMetadata" → k ≠ "testbenchData" → slot w' nl k = slot w nl k).
Proof.
  unfold restore_metadata.
  intros (vm & ? & [-> ->]%getp_doc & Hrun)%bind_Ok.
  apply bind_Ok in Hrun as ([] & w1 & Hvm & Hrun).
  apply bind_Ok in Hrun as (tbv & ? & [-> ->]%getp_doc & Hrun).
  assert (ids w1 = ids w
          ∧ (truthy (assoc_get "verilogMetadata" kvs) = true →
             slot w1 nl "verilogMetadata" = assoc_get "verilogMetadata" kvs)
          ∧ ∀ k, k ≠ "verilogMetadata" → slot w1 nl k = slot w nl k) as (Hi1 & Hv1 & Ho1).
  { destruct (truthy (assoc_get "verilogMetadata" kvs)).
    - pose proof (setp_ids _ _ _ _ _ Hvm).
      apply slot_after_setp in Hvm as (_ & ? & ?). repeat split; auto.
    - injection Hvm as <-. repeat split; auto. done. }
  destruct (truthy (assoc_get "testbenchData" kvs)) eqn:Htb.
  - apply bind_Ok in Hrun as (td & ? & [-> Htd]%getp_Ok & Hrun).
    apply bind_Ok in Hrun as (cg & ? & [-> Hcg]%getp_Ok & Hrun).
    apply bind_Ok in Hrun as (cc & ? & [-> Hcc]%getp_Ok & Hrun).
    pose proof (setp_ids _ _ _ _ _ Hrun) as Hi2.
    apply slot_after_setp in Hrun as (_ & Ht2 & Ho2).
    split; [congruence|]. split; [|split].
    + intros Hvm'. rewrite Ho2 by done. by apply Hv1.
    + intros tb Heq. rewrite Heq in *. simpl in Htd, Hcg, Hcc.
      injection Htd as <-. injection Hcg as <-. injection Hcc as <-. done.
    + intros k Hk1 Hk2. by rewrite Ho2, Ho1.
  - injection Hrun as <-. split; [done|]. split; [done|]. split; [|auto].
    intros tb Heq. by rewrite Heq in Htb.
Qed.

(** Lines 182-185 change nothing but the layout. *)
Lemma default_titleEnabled_other nl w w' :
  default_titleEnabled (VRef nl) w = Ok tt w' →
  ids w' = ids w ∧ ∀ k, k ≠ "layout" → slot w' nl k = slot w nl k.
Proof.
  unfold default_titleEnabled.
  intros (layout & ? & ->%reads_getp & Hrun)%bind_Ok.
  apply bind_Ok in Hrun as (te & ? & ->%reads_getp & Hrun).
  destruct (is_undefined te).
  - apply bind_Ok in Hrun as (props & ? & ->%reads_spread_props & Hset).
    split; [by apply setp_ids in Hset|]. by apply slot_after_setp in Hset as (_ & _ & ?).
  - by injection Hrun as <-.
Qed.

(** Lines 151-181 change nothing but the layout and the two port arrays. *)
Lemma resolve_layout_other nl data w w' :
  resolve_layout (VRef nl) data w = Ok tt w' →
  ∀ k, k ≠ "layout" → k ≠ "Input" → k ≠ "Output" → slot w' nl k = slot w nl k.
Proof.
  unfold resolve_layout.
  intros (layout & ? & ->%reads_getp & Hrun)%bind_Ok.
  destruct (truthy layout).
  - apply slot_after_setp in Hrun as (_ & _ & Hne). auto.
  - apply synthesize_layout_post in Hrun
      as (nl' & ins & outs & [= <-] & _ & _ & _ & _ & _ & _ & Hother). auto.
Qed.

(** X25.  The scope [loadScope] returns carries the metadata of the document: its
    [verilogMetadata] as stored, and a [TestbenchData] built from the three
    stored fields of its [testbenchData]. *)
Theorem stored_metadata_is_restored fuel scope kvs w nl w' :
  loadScope fuel scope (VObj kvs) w = Ok (VRef nl) w' →
  (truthy (assoc_get "verilogMetadata" kvs) = true →
   slot w' nl "verilogMetadata" = assoc_get "verilogMetadata" kvs)
  ∧ (∀ tb, assoc_get "testbenchData" kvs = VObj tb →
       slot w' nl "testbenchData" =
         TestbenchData (assoc_get "testData" tb) (assoc_get "currentGroup" tb)
           (assoc_get "currentCase" tb)).
Proof.
  intros (w1 & w2 & w3 & w4 & _ & _ & Hmeta & Hres & Hdef)%loadScope_steps.
  apply restore_metadata_post in Hmeta as (_ & Hvm & Htb & _).
  apply default_titleEnabled_other in Hdef as (_ & Hd).
  pose proof (resolve_layout_other _ _ _ _ Hres) as Hr.
  split.
  - intros Htr. rewrite Hd, Hr by done. by apply Hvm.
  - intros tb Heq. rewrite Hd, Hr by done. by apply Htb.
Qed.

(** X26.  With a layout stored in the document nothing is laid out anew: the
    scope returned has the [Input] and [Output] arrays that the loading of
    nodes and elements left, and [generateId] is not called after that. *)
Theorem stored_layout_is_adopted fuel scope kvs w nl w' :
  loadScope fuel scope (VObj kvs) w = Ok (VRef nl) w' →
  truthy (assoc_get "layout" kvs) = true →
  ∃ w1 w2,
    copy_scope scope (VObj kvs) w = Ok (VRef nl) w1
    ∧ load_elements fuel (VRef nl) (VObj kvs) w1 = Ok tt w2
    ∧ slot w' nl "Input" = slot w2 nl "Input"
    ∧ slot w' nl "Output" = slot w2 nl "Output"
    ∧ ids w' = ids w2.
Proof.
  intros (w1 & w2 & w3 & w4 & Hcopy & Hload & Hmeta & Hres & Hdef)%loadScope_steps Hlay.
  exists w1, w2. split; [done|]. split; [done|].
  apply restore_metadata_post in Hmeta as (Hi3 & _ & _ & Hm).
  apply default_titleEnabled_other in Hdef as (Hi5 & Hd).
  unfold resolve_layout in Hres.
  apply bind_Ok in Hres as (layout & ? & [-> ->]%getp_doc & Hres).
  rewrite Hlay in Hres. pose proof (setp_ids _ _ _ _ _ Hres) as Hi4.
  apply slot_after_setp in Hres as (_ & _ & Hr).
  rewrite !Hd, !Hr, !Hm by done. split; [done|]. split; [done|]. congruence.
Qed.

(** *** The ports of a synthesized layout (lines 164-180) *)

(** What the callbacks of lines 164 and 172 do with one port: the heap is
    left alone, one id is taken from [generateId], and the result is the
    port's own properties with [layoutProperties] put in. *)
Definition lays_out (f : value → nat → M value) : Prop :=
  ∀ x i w y w', f x i w = Ok y w' →
    heap w' = heap w ∧ ids w' = S (ids w)
    ∧ ∃ props lp,
        spread w x = Some props
        ∧ y = VObj (assoc_set "layoutProperties" (VObj lp) props)
        ∧ assoc_get "id" lp = generateId (ids w).

Lemma reads_port_y ns ports i : reads (port_y ns ports i).
Proof.
  unfold port_y.
  repeat (apply reads_bind; [auto with reads|intros ?]). auto with reads.
Qed.

Lemma lays_out_input ns : lays_out (input_layout ns).
Proof.
  intros x i w y w'. unfold input_layout.
  intros (props & ? & Hsp & Hrun)%bind_Ok.
  pose proof (reads_spread_props _ _ _ _ Hsp) as ->.
  unfold spread_props in Hsp. destruct (spread w x) as [props'|] eqn:Hspread; [|done].
  injection Hsp as ->.
  apply bind_Ok in Hrun as (yv & ? & ->%reads_port_y & Hrun).
  apply bind_Ok in Hrun as (gid & w1 & [= <- <-] & [= <- <-]).
  simpl. split; [done|]. split; [done|]. eexists _, _. split; [done|]. split; done.
Qed.

Lemma lays_out_output ns : lays_out (output_layout ns).
Proof.
  intros x i w y w'. unfold output_layout.
  intros (props & ? & Hsp & Hrun)%bind_Ok.
  pose proof (reads_spread_props _ _ _ _ Hsp) as ->.
  unfold spread_props in Hsp. destruct (spread w x) as [props'|] eqn:Hspread; [|done].
  injection Hsp as ->.
  apply bind_Ok in Hrun as (layout & ? & ->%reads_getp & Hrun).
  apply bind_Ok in Hrun as (width & ? & ->%reads_getp & Hrun).
  apply bind_Ok in Hrun as (yv & ? & ->%reads_port_y & Hrun).
  apply bind_Ok in Hrun as (gid & w1 & [= <- <-] & [= <- <-]).
  simpl. split; [done|]. split; [done|]. eexists _, _. split; [done|]. split; done.
Qed.

Lemma spread_heap w1 w2 v : heap w1 = heap w2 → spread w1 v = spread w2 v.
Proof. intros Hh. unfold spread. by rewrite Hh. Qed.

Lemma mapIndex_lays_out f xs : lays_out f → ∀ i w ys w',
  mapIndex i xs f w = Ok ys w' →
  heap w' = heap w ∧ ids w' = ids w + length xs ∧ length ys = length xs
  ∧ ∀ j x, xs !! j = Some x →
      ∃ props lp,
        spread w x = Some props
        ∧ ys !! j = Some (VObj (assoc_set "layoutProperties" (VObj lp) props))
        ∧ assoc_get "id" lp = generateId (ids w + j).
Proof.
  intros Hf. induction xs as [|x rest IH]; intros i w ys w'; simpl.
  - intros [= <- <-]. repeat split; try done; try lia.
  - intros (y & w1 & Hone & Hrun)%bind_Ok.
    apply bind_Ok in Hrun as (ys' & w2 & Hrest & [= <- <-]).
    apply Hf in Hone as (Hh1 & Hi1 & props & lp & Hsp & -> & Hid).
    apply IH in Hrest as (Hh2 & Hi2 & Hlen & Hall).
    split; [congruence|]. split; [lia|]. split; [simpl; lia|].
    intros [|j] x' Hj; simpl in Hj.
    + injection Hj as <-. exists props, lp. rewrite Nat.add_0_r. done.
    + destruct (Hall j x' Hj) as (props' & lp' & Hsp' & Hy & Hid').
      exists props', lp'. rewrite <- (spread_heap w1 w) by done.
      split; [done|]. split; [done|]. rewrite Hid'. f_equal. lia.
Qed.

Lemma spread_set_cell nl c w v : v ≠ VRef nl → spread (set_cell nl c w) v = spread w v.
Proof.
  intros Hne. destruct v as [| | | | | |l| |]; try done. simpl.
  rewrite list_lookup_insert_ne; [done|]. congruence.
Qed.

(** X27.  In a synthesized layout every port of the scope is copied with its own
    properties, and each copy gets an id of its own: [generateId] is called
    once per port, for the inputs in their order and then for the outputs,
    and not otherwise. *)
Theorem synthesized_ports_are_copies_with_new_ids nl w w' :
  synthesize_layout (VRef nl) w = Ok tt w' →
  ∃ xs os ins outs,
    elements w (slot w nl "Input") = Some xs
    ∧ elements w (slot w nl "Output") = Some os
    ∧ slot w' nl "Input" = VArr ins
    ∧ slot w' nl "Output" = VArr outs
    ∧ ids w' = ids w + length xs + length os
    ∧ (∀ i x, xs !! i = Some x → x ≠ VRef nl →
         ∃ props lp,
           spread w x = Some props
           ∧ ins !! i = Some (VObj (assoc_set "layoutProperties" (VObj lp) props))
           ∧ assoc_get "id" lp = generateId (ids w + i))
    ∧ (∀ j x, os !! j = Some x → x ≠ VRef nl →
         ∃ props lp,
           spread w x = Some props
           ∧ outs !! j = Some (VObj (assoc_set "layoutProperties" (VObj lp) props))
           ∧ assoc_get "id" lp = generateId (ids w + length xs + j)).
Proof.
  unfold synthesize_layout.
  intros (inV & ? & [-> Hin]%getp_Ok & Hrun)%bind_Ok.
  apply bind_Ok in Hrun as (nin & ? & ->%reads_getp & Hrun).
  apply bind_Ok in Hrun as (outV & ? & [-> Hout]%getp_Ok & Hrun).
  apply bind_Ok in Hrun as (nout & ? & ->%reads_getp & Hrun).
  apply bind_Ok in Hrun as (most & ? & ->%reads_math_max & Hrun).
  apply bind_Ok in Hrun as (m20 & ? & ->%reads_arith & Hrun).
  apply bind_Ok in Hrun as (height & ? & ->%reads_arith & Hrun).
  apply bind_Ok in Hrun as ([] & w1 & Hset & Hrun).
  apply setp_Ok in Hset as (nl' & fields & [= <-] & Hcell & Hw1).
  simpl in Hin, Hout. rewrite Hcell in Hin, Hout.
  injection Hin as <-. injection Hout as <-.
  set (NL := VObj [("width", VNum 100); ("height", height);
                   ("title_x", VNum 50); ("title_y", VNum 13)]) in *.
  assert (heap w1 !! nl = Some (CObj (assoc_set "layout" NL fields))) as Hcell1.
  { rewrite Hw1. unfold set_cell. simpl. rewrite list_lookup_insert_eq; [done|].
    by eapply lookup_lt_Some. }
  assert (ids w1 = ids w) as Hi1 by (by rewrite Hw1).
  apply bind_Ok in Hrun as (inV' & ? & [-> Hin']%getp_Ok & Hrun).
  simpl in Hin'. rewrite Hcell1 in Hin'. rewrite assoc_get_set_ne in Hin' by done.
  injection Hin' as <-.
  apply bind_Ok in Hrun as (inputLayouts & w2 & Hmap1 & Hrun).
  apply array_map_Ok in Hmap1 as (xs & ins & Hxs & Hmap1 & ->).
  apply (mapIndex_lays_out _ _ (lays_out_input (VRef nl))) in Hmap1
    as (Hh2 & Hi2 & Hlen1 & Hins).
  apply bind_Ok in Hrun as (outV' & ? & [-> Hout']%getp_Ok & Hrun).
  rewrite (peek_heap _ w1) in Hout' by done.
  simpl in Hout'. rewrite Hcell1 in Hout'. rewrite assoc_get_set_ne in Hout' by done.
  injection Hout' as <-.
  apply bind_Ok in Hrun as (outputLayouts & w3 & Hmap2 & Hrun).
  apply array_map_Ok in Hmap2 as (os & outs & Hos & Hmap2 & ->).
  apply (mapIndex_lays_out _ _ (lays_out_output (VRef nl))) in Hmap2
    as (Hh3 & Hi3 & Hlen2 & Houts).
  rewrite (elements_heap _ w1) in Hos by done.
  rewrite Hw1 in Hxs, Hos.
  apply elements_after_setp in Hxs as (Hxs & _).
  apply elements_after_setp in Hos as (Hos & _).
  apply bind_Ok in Hrun as ([] & w4 & Hset1 & Hset2).
  pose proof (setp_ids _ _ _ _ _ Hset1) as Hi4.
  pose proof (setp_ids _ _ _ _ _ Hset2) as Hi5.
  apply slot_after_setp in Hset1 as (_ & Hs4 & _).
  apply slot_after_setp in Hset2 as (_ & Hs5 & Hne5).
  exists xs, os, ins, outs.
  assert (∀ k, slot w nl k = assoc_get k fields) as Hslot.
  { intros k. unfold slot. by rewrite Hcell. }
  rewrite !Hslot. split; [done|]. split; [done|].
  split; [by rewrite Hne5|]. split; [done|]. split; [lia|]. split.
  - intros i x Hi Hne. destruct (Hins i x Hi) as (props & lp & Hsp & Hy & Hid).
    exists props, lp. rewrite Hw1, spread_set_cell in Hsp by done.
    split; [done|]. split; [done|]. by rewrite Hid, Hi1.
  - intros j x Hj Hne. destruct (Houts j x Hj) as (props & lp & Hsp & Hy & Hid).
    exists props, lp. rewrite (spread_heap w2 w1), Hw1, spread_set_cell in Hsp by done.
    split; [done|]. split; [done|]. rewrite Hid. f_equal. lia.
Qed.

End scopes.

(** ** Runs in the sample simulator *)
Import Samples.

(** An AND gate saved with a label, a stored input count and subcircuit
    metadata of its own. *)
Definition labelled_gate : list (string * value) :=
  [("objectType", VStr "AndGate"); ("x", VNum 10); ("y", VNum 20);
   ("label", VStr "carry");
   ("customData", VObj [("values", VObj [("inputSize", VNum 3)])]);
   ("subcircuitMetadata", VObj [("showLabelInSubcircuit", VBool true)])].

Lemma loadModule_rejects_malformed_record_witness :
  loadModule (VObj [("objectType", VStr "AndGate")]) fresh_scope fresh_world
  = Throw "TypeError: cannot read properties of undefined or null"
  ∧ loadModule (VObj [("objectType", VStr "Teapot"); ("customData", VObj [])])
      fresh_scope fresh_world
    = Throw "TypeError: modules[...] is not a constructor".
Proof.
  destruct loadModule_rejects_malformed_record as [Hmissing Hunknown]. split.
  - apply Hmissing. left. reflexivity.
  - apply (Hunknown _ [] "Teapot"); try reflexivity.
    intros tag' [= <-]. reflexivity.
Defined.

Lemma subcircuit_metadata_is_attached_witness :
  ∃ w1 w',
    construct (VObj labelled_gate) fresh_scope fresh_world = Ok (VRef 7) w1
    ∧ loadModule (VObj labelled_gate) fresh_scope fresh_world = Ok tt w'
    ∧ slot w' 7 "subcircuitMetadata" = VObj [("showLabelInSubcircuit", VBool true)].
Proof.
  eexists _, _. split; [by vm_compute|]. split; [by vm_compute|].
  eapply (subcircuit_metadata_is_attached labelled_gate fresh_scope fresh_world 7).
  - by vm_compute.
  - by vm_compute.
  - reflexivity.
Defined.

Lemma label_is_copied_witness :
  ∃ w1 w',
    construct (VObj labelled_gate) fresh_scope fresh_world = Ok (VRef 7) w1
    ∧ loadModule (VObj labelled_gate) fresh_scope fresh_world = Ok tt w'
    ∧ slot w' 7 "label" = VStr "carry".
Proof.
  eexists _, _. split; [by vm_compute|]. split; [by vm_compute|].
  eapply (label_is_copied labelled_gate fresh_scope fresh_world 7).
  - by vm_compute.
  - by vm_compute.
  - by apply keeps_fix_element_direction.
  - intros a b. apply keeps_reads, reads_ret.
  - intros w0. change ("label" ∉ ["inputSize"]).
    apply not_elem_of_cons. split; [discriminate|apply not_elem_of_nil].
  - intros w0. apply not_elem_of_nil.
Defined.

Lemma stored_values_are_restored_witness :
  ∃ w1 w',
    construct (VObj labelled_gate) fresh_scope fresh_world = Ok (VRef 7) w1
    ∧ loadModule (VObj labelled_gate) fresh_scope fresh_world = Ok tt w'
    ∧ slot w' 7 "inputSize" = VNum 3.
Proof.
  eexists _, _. split; [by vm_compute|]. split; [by vm_compute|].
  eapply (stored_values_are_restored labelled_gate _ [("inputSize", VNum 3)]
            fresh_scope fresh_world 7).
  - by vm_compute.
  - by vm_compute.
  - reflexivity.
  - reflexivity.
  - simpl. apply list_elem_of_singleton. reflexivity.
  - intros a b. apply keeps_reads, reads_ret.
  - intros w0. apply not_elem_of_nil.
  - left. discriminate.
Defined.

(** The sample circuit after [loadNode] has loaded nodes of the given
    types (cells 7, 8, ...); all hang off the root element. *)
Definition nodes_of (types : list Z) : world :=
  match forEach types (λ t, loadNode (VObj [("type", VNum t)]) fresh_scope) fresh_world with
  | Ok _ w => w
  | _ => fresh_world
  end.

Lemma simulator_delete_removes W xs0 :
  (∀ n, n ∈ xs0 → peek W (VRef n) "parent" = Some (VRef 5)) →
  peek W (VRef 5) "scope" = Some (VRef 6) →
  ∀ n xs w, n ∈ xs0 → node_list 6 0 W xs0 xs w →
    node_delete (VRef n) w = delete_from (VRef 6) (VRef n) w.
Proof.
  intros Hparent Hscope n xs w Hn Hnl. simpl. unfold delete_node, bind, getp.
  rewrite (nl_same _ _ _ _ _ _ Hnl (VRef n) "parent") by discriminate.
  rewrite (Hparent n Hn).
  rewrite (nl_same _ _ _ _ _ _ Hnl (VRef 5) "scope") by discriminate.
  by rewrite Hscope.
Qed.

Lemma cleanup_leaves_clean_list_alone_witness :
  removeBugNodes 10 fresh_scope (nodes_of [2; 2]%Z) = Ok tt (nodes_of [2; 2]%Z).
Proof.
  apply (cleanup_leaves_clean_list_alone 10 fresh_scope (VRef 0) [VRef 7; VRef 8]).
  - reflexivity.
  - reflexivity.
  - intros n Hn. apply list_elem_of_In in Hn. simpl in Hn.
    destruct Hn as [<-|[<-|[]]]; reflexivity.
  - simpl. lia.
Defined.

Lemma cleanup_leaves_at_most_one_offender_witness :
  ∃ r w',
    removeBugNodes 20 fresh_scope (nodes_of [0; 2; 1]%Z) = Ok tt w'
    ∧ node_list 6 0 (nodes_of [0; 2; 1]%Z) [7; 8; 9] r w'
    ∧ filter (λ n, negb (n =? 8) = false) r = [8]
    ∧ ∀ j n, 1 ≤ j → r !! j = Some n → bug_node w' (VRef n) = false.
Proof.
  apply (cleanup_leaves_at_most_one_offender 6 0 (nodes_of [0; 2; 1]%Z) [7; 8; 9]
           (λ n, negb (n =? 8))).
  - intros n Hn. apply list_elem_of_In in Hn. simpl in Hn.
    destruct Hn as [<-|[<-|[<-|[]]]]; reflexivity.
  - apply simulator_delete_removes; [|reflexivity].
    intros n Hn. apply list_elem_of_In in Hn. simpl in Hn.
    destruct Hn as [<-|[<-|[<-|[]]]]; reflexivity.
  - split.
    + eexists. split; reflexivity.
    + reflexivity.
    + done.
    + done.
  - simpl. lia.
Defined.

Lemma cleanup_is_complete_when_first_node_is_clean_witness :
  ∃ r w',
    removeBugNodes 20 fresh_scope (nodes_of [2; 0; 1]%Z) = Ok tt w'
    ∧ node_list 6 0 (nodes_of [2; 0; 1]%Z) [7; 8; 9] r w'
    ∧ r = [7]
    ∧ ∀ n, n ∈ r → bug_node w' (VRef n) = false.
Proof.
  apply (cleanup_is_complete_when_first_node_is_clean 6 0 (nodes_of [2; 0; 1]%Z) [7; 8; 9]
           (λ n, negb (n =? 7))).
  - intros n Hn. apply list_elem_of_In in Hn. simpl in Hn.
    destruct Hn as [<-|[<-|[<-|[]]]]; reflexivity.
  - apply simulator_delete_removes; [|reflexivity].
    intros n Hn. apply list_elem_of_In in Hn. simpl in Hn.
    destruct Hn as [<-|[<-|[<-|[]]]]; reflexivity.
  - split.
    + eexists. split; reflexivity.
    + reflexivity.
    + done.
    + done.
  - intros n [= <-]. reflexivity.
  - simpl. lia.
Defined.

Lemma loadScope_needs_the_node_list_witness :
  loadScope 10 fresh_scope (VObj [("id", VStr "c1")]) fresh_world
  = Throw "TypeError: cannot read properties of undefined or null".
Proof.
  apply loadScope_needs_the_node_list.
  - by eexists.
  - left. reflexivity.
Defined.

(** The sample circuit saved with its layout, Verilog metadata and a
    test bench. *)
Definition annotated_document : list (string * value) :=
  current_document ++
  [("verilogMetadata", VObj [("isVerilogCircuit", VBool true);
                             ("isMainCircuit", VBool false)]);
   ("testbenchData", VObj [("testData", VObj [("type", VStr "comb")]);
                           ("currentGroup", VNum 0); ("currentCase", VNum 1)])].

Definition annotated_loaded : world :=
  Eval vm_compute in
    match loadScope 10 fresh_scope (VObj annotated_document) fresh_world with
    | Ok _ w' => w'
    | _ => fresh_world
    end.

Lemma annotated_run :
  loadScope 10 fresh_scope (VObj annotated_document) fresh_world
  = Ok (VRef 7) annotated_loaded.
Proof. vm_compute. reflexivity. Qed.

Lemma stored_metadata_is_restored_witness :
  slot annotated_loaded 7 "verilogMetadata"
  = VObj [("isVerilogCircuit", VBool true); ("isMainCircuit", VBool false)]
  ∧ slot annotated_loaded 7 "testbenchData"
    = VObj [("testData", VObj [("type", VStr "comb")]);
            ("currentGroup", VNum 0); ("currentCase", VNum 1)].
Proof.
  destruct (stored_metadata_is_restored 10 fresh_scope annotated_document fresh_world 7
              annotated_loaded annotated_run) as (Hvm & Htb).
  split.
  - by apply Hvm.
  - by apply (Htb [("testData", VObj [("type", VStr "comb")]);
                   ("currentGroup", VNum 0); ("currentCase", VNum 1)]).
Defined.

Lemma stored_layout_is_adopted_witness :
  ∃ w1 w2,
    copy_scope fresh_scope (VObj current_document) fresh_world = Ok (VRef 7) w1
    ∧ load_elements 10 (VRef 7) (VObj current_document) w1 = Ok tt w2
    ∧ slot current_loaded 7 "Input" = slot w2 7 "Input"
    ∧ slot current_loaded 7 "Output" = slot w2 7 "Output"
    ∧ ids current_loaded = ids w2.
Proof.
  apply (stored_layout_is_adopted 10 fresh_scope current_document fresh_world 7
           current_loaded current_run).
  reflexivity.
Defined.

(** The sample circuit with one input and one output element, and the
    world after lines 155-180 have laid it out. *)
Definition ported_world : world :=
  Eval vm_compute in
    match (let* _ := element "Input" 0 (VNum 0) (VNum 0) fresh_scope [] in
           element "Output" 0 (VNum 0) (VNum 0) fresh_scope []) fresh_world with
    | Ok _ w => w
    | _ => fresh_world
    end.

Definition laid_out_world : world :=
  Eval vm_compute in
    match synthesize_layout fresh_scope ported_world with
    | Ok _ w => w
    | _ => ported_world
    end.

Lemma laid_out_run : synthesize_layout fresh_scope ported_world = Ok tt laid_out_world.
Proof. vm_compute. reflexivity. Qed.

Lemma synthesized_ports_are_copies_with_new_ids_witness :
  ∃ ins outs,
    slot laid_out_world 6 "Input" = VArr ins
    ∧ slot laid_out_world 6 "Output" = VArr outs
    ∧ ids laid_out_world = ids ported_world + 2.
Proof.
  destruct (synthesized_ports_are_copies_with_new_ids 6 ported_world laid_out_world
              laid_out_run) as (xs & os & ins & outs & Hxs & Hos & Hin & Hout & Hids & _).
  exists ins, outs. split; [exact Hin|]. split; [exact Hout|].
  assert (length xs = 1 ∧ length os = 1) as [Hx Ho].
  { revert Hxs Hos. vm_compute. intros [= <-] [= <-]. split; reflexivity. }
  rewrite Hids, Hx, Ho. lia.
Defined.

End LoaderLaws.
